(** * Tic-Tac-Toe, human against an unbeatable engine: [final.py]

    A shallow embedding of the game utilities, the minimax search with
    optional alpha-beta pruning, the move-ordering heuristic, the input
    parser and the game loop, followed by the properties proved of them.

    Conventions of the embedding:
    - the board is the Python list of cells, a [list cell]; it is threaded
      explicitly through every function that mutates it ([board[m] = ...]);
    - a subscript out of range raises [IndexError]: fallible code returns a
      [result];
      no subscript of the program is negative, so indices are naturals;
    - [math.inf] and [-math.inf] are the two infinite points of [ext];
    - the recursion of [minimax] is bounded by a fuel argument; the lemmas
      show that one more unit of fuel than the board has empty cells is
      enough, and that more fuel does not change an answer;
    - printing is left out. *)

From Stdlib Require Import ZArith List Bool Lia Ascii String Permutation.
From Stdlib Require Import DecimalString DecimalNat Sorted.
From stdpp Require Import base list.
Import ListNotations.

Local Open Scope Z_scope.
Local Open Scope nat_scope.

(** * Part I: the program *)

(** ** Results of fallible code *)

Inductive exn : Type := IndexError | ValueError | TypeError | EOFError.

Inductive result (A : Type) : Type :=
| Ok (a : A)
| Raise (e : exn)
| OutOfFuel.

Arguments Ok {A} a.
Arguments Raise {A} e.
Arguments OutOfFuel {A}.

Definition bind {A B : Type} (r : result A) (k : A -> result B) : result B :=
  match r with
  | Ok a => k a
  | Raise e => Raise e
  | OutOfFuel => OutOfFuel
  end.

Declare Scope result_scope.
Delimit Scope result_scope with result.
Notation "'let!' x ':=' e 'in' k" := (bind e (fun x => k))
  (at level 10, x pattern, e at level 100, k at level 200) : result_scope.
Local Open Scope result_scope.

(** ** Configuration and board *)

Inductive cell : Type := X | O | Blank.

Definition HUMAN : cell := X.
Definition AI : cell := O.
Definition EMPTY : cell := Blank.
Definition HUMAN_FIRST : bool := true.
Definition USE_ALPHA_BETA : bool := true.

Definition cell_eqb (c d : cell) : bool :=
  match c, d with
  | X, X | O, O | Blank, Blank => true
  | _, _ => false
  end.

Abbreviation board := (list cell).

(** [board[i]] *)
Definition getitem (b : board) (i : nat) : result cell :=
  match b !! i with
  | Some c => Ok c
  | None => Raise IndexError
  end.

(** [board[i] = c] *)
Definition setitem (b : board) (i : nat) (c : cell) : result board :=
  if i <? length b then Ok (<[i := c]> b) else Raise IndexError.

(** ** Game utilities *)

Definition WIN_LINES : list (nat * nat * nat) :=
  [ (0, 1, 2); (3, 4, 5); (6, 7, 8);
    (0, 3, 6); (1, 4, 7); (2, 5, 8);
    (0, 4, 8); (2, 4, 6) ].

(** The loop of [winner] over a list of lines.  The test
    [board[a] != EMPTY and board[a] == board[b] == board[c]] is evaluated
    left to right and stops at the first false conjunct. *)
Fixpoint winner_in (lines : list (nat * nat * nat)) (b : board)
  : result (option cell) :=
  match lines with
  | [] => Ok None
  | (i, j, k) :: rest =>
      let! x := getitem b i in
      if cell_eqb x EMPTY then winner_in rest b
      else
        let! y := getitem b j in
        if negb (cell_eqb x y) then winner_in rest b
        else
          let! z := getitem b k in
          if negb (cell_eqb y z) then winner_in rest b
          else Ok (Some x)
  end.

Definition winner (b : board) : result (option cell) := winner_in WIN_LINES b.

Fixpoint enumerate_from {A : Type} (i : nat) (l : list A) : list (nat * A) :=
  match l with
  | [] => []
  | v :: t => (i, v) :: enumerate_from (S i) t
  end.

Definition enumerate {A : Type} (l : list A) : list (nat * A) :=
  enumerate_from 0 l.

Definition available_moves (b : board) : list nat :=
  map fst (List.filter (fun iv => cell_eqb (snd iv) EMPTY) (enumerate b)).

Definition is_nil {A : Type} (l : list A) : bool :=
  match l with [] => true | _ => false end.

Definition is_some {A : Type} (o : option A) : bool :=
  match o with Some _ => true | None => false end.

(** [w == mark], for the result [w] of [winner]. *)
Definition is_mark (w : option cell) (mark : cell) : bool :=
  match w with Some c => cell_eqb c mark | None => false end.

Definition is_terminal (b : board) : result bool :=
  let! w := winner b in
  Ok (is_some w || is_nil (available_moves b)).

Definition score (b : board) : result Z :=
  let! w := winner b in
  Ok (if is_mark w AI then 1%Z
      else if is_mark w HUMAN then (-1)%Z
      else 0%Z).

(** ** Move ordering *)

(** [[i for i in idxs if board[i] == EMPTY]] *)
Fixpoint empty_among (idxs : list nat) (b : board) : result (list nat) :=
  match idxs with
  | [] => Ok []
  | i :: t =>
      let! c := getitem b i in
      let! r := empty_among t b in
      Ok (if cell_eqb c EMPTY then i :: r else r)
  end.

Definition move_order (b : board) : result (list nat) :=
  let! c4 := getitem b 4 in
  let center := if cell_eqb c4 EMPTY then [4] else [] in
  let! corners := empty_among [0; 2; 6; 8] b in
  let! edges := empty_among [1; 3; 5; 7] b in
  Ok (center ++ corners ++ edges).

(** ** Scores: integers extended with [-math.inf] and [math.inf] *)

Inductive ext : Type := NegInf | Fin (z : Z) | PosInf.

Definition ext_ltb (a b : ext) : bool :=
  match a, b with
  | _, NegInf => false
  | NegInf, _ => true
  | PosInf, _ => false
  | Fin _, PosInf => true
  | Fin x, Fin y => (x <? y)%Z
  end.

Definition ext_leb (a b : ext) : bool := negb (ext_ltb b a).

(** [max(a, b)] and [min(a, b)]: Python returns the first argument unless
    the second is strictly greater (resp. smaller). *)
Definition ext_max (a b : ext) : ext := if ext_ltb a b then b else a.
Definition ext_min (a b : ext) : ext := if ext_ltb b a then b else a.

(** ** Minimax with optional alpha-beta pruning *)

Definition search_result : Type := ext * option nat.

Section Search.

(** The module-level switch [USE_ALPHA_BETA]. *)
Variable use_alpha_beta : bool.

(** The recursive call, as seen from the two loops. *)
Variable rec : bool -> ext -> ext -> board -> result (search_result * board).

(** [for m in order: ...] of the maximizing branch. *)
Fixpoint max_loop (order : list nat) (best_score : ext)
    (best_move : option nat) (alpha beta : ext) (b : board)
  : result (search_result * board) :=
  match order with
  | [] => Ok ((best_score, best_move), b)
  | m :: rest =>
      let! b := setitem b m AI in
      let! ((s, _), b) := rec false alpha beta b in
      let! b := setitem b m EMPTY in
      let '(best_score, best_move) :=
        if ext_ltb best_score s then (s, Some m)
        else (best_score, best_move) in
      if use_alpha_beta then
        let alpha := ext_max alpha best_score in
        if ext_leb beta alpha then Ok ((best_score, best_move), b)
        else max_loop rest best_score best_move alpha beta b
      else max_loop rest best_score best_move alpha beta b
  end.

(** [for m in order: ...] of the minimizing branch. *)
Fixpoint min_loop (order : list nat) (best_score : ext)
    (best_move : option nat) (alpha beta : ext) (b : board)
  : result (search_result * board) :=
  match order with
  | [] => Ok ((best_score, best_move), b)
  | m :: rest =>
      let! b := setitem b m HUMAN in
      let! ((s, _), b) := rec true alpha beta b in
      let! b := setitem b m EMPTY in
      let '(best_score, best_move) :=
        if ext_ltb s best_score then (s, Some m)
        else (best_score, best_move) in
      if use_alpha_beta then
        let beta := ext_min beta best_score in
        if ext_leb beta alpha then Ok ((best_score, best_move), b)
        else min_loop rest best_score best_move alpha beta b
      else min_loop rest best_score best_move alpha beta b
  end.

End Search.

Fixpoint minimax (use_alpha_beta : bool) (fuel : nat) (maximizing : bool)
    (alpha beta : ext) (b : board) : result (search_result * board) :=
  match fuel with
  | 0 => OutOfFuel
  | S fuel =>
      let! t := is_terminal b in
      if t then
        let! s := score b in Ok ((Fin s, None), b)
      else
        let! order := move_order b in
        if maximizing then
          max_loop use_alpha_beta (minimax use_alpha_beta fuel)
            order NegInf None alpha beta b
        else
          min_loop use_alpha_beta (minimax use_alpha_beta fuel)
            order PosInf None alpha beta b
  end.

(** [best_ai_move]: the call [minimax(board, maximizing=True)] takes the
    default window [(-math.inf, math.inf)]. *)
Definition best_ai_move (use_alpha_beta : bool) (fuel : nat) (b : board)
  : result (option nat * board) :=
  let! ((_, move), b) := minimax use_alpha_beta fuel true NegInf PosInf b in
  Ok (move, b).

Definition empty_board : board := repeat EMPTY 9.

(** ** Input handling

    Strings are lists of characters with code points below 256.  On these,
    [str.isspace] holds of the codes 9-13, 28-32, 133 and 160, and
    [str.isdigit] of the decimal digits and of the superscripts with codes
    178, 179 and 185, which [int] refuses with [ValueError]. *)

Abbreviation str := (list ascii).

(** A string literal as a [str]. *)
Definition line (s : string) : str := list_ascii_of_string s.

Definition isspace (c : ascii) : bool :=
  let n := nat_of_ascii c in
  ((9 <=? n) && (n <=? 13)) || ((28 <=? n) && (n <=? 32))
  || (n =? 133) || (n =? 160).

Definition is_decimal (c : ascii) : bool :=
  let n := nat_of_ascii c in (48 <=? n) && (n <=? 57).

Definition isdigit_char (c : ascii) : bool :=
  let n := nat_of_ascii c in
  is_decimal c || (n =? 178) || (n =? 179) || (n =? 185).

(** [s.isdigit()] *)
Definition isdigit (s : str) : bool := negb (is_nil s) && forallb isdigit_char s.

Fixpoint lstrip (s : str) : str :=
  match s with
  | c :: t => if isspace c then lstrip t else s
  | [] => []
  end.

(** [s.strip()] *)
Definition strip (s : str) : str := rev (lstrip (rev (lstrip s))).

(** [s.replace(old, new)] for one-character [old] and [new] *)
Definition replace (old new : ascii) (s : str) : str :=
  map (fun c => if Ascii.eqb c old then new else c) s.

(** [s.split()]: the maximal runs of non-space characters; [cur] is the
    run being read, last character first. *)
Fixpoint split_from (cur : str) (s : str) : list str :=
  match s with
  | [] => if is_nil cur then [] else [rev cur]
  | c :: t =>
      if isspace c
      then (if is_nil cur then split_from [] t else rev cur :: split_from [] t)
      else split_from (c :: cur) t
  end.

Definition split (s : str) : list str := split_from [] s.

(** [int(s)] on a string of digits, the only strings it is called on:
    the decimal value, or [ValueError] when a character is not a decimal
    digit.  (The bound that recent interpreters put on the length of a
    decimal literal is not modelled.) *)
Definition int (s : str) : result nat :=
  if negb (is_nil s) && forallb is_decimal s
  then Ok (fold_left (fun n c => 10 * n + (nat_of_ascii c - 48)) s 0)
  else Raise ValueError.

Definition parse_move (s : str) : result (option nat) :=
  let s := replace "," " " (strip s) in
  let parts := List.filter isdigit (split s) in
  let! rc :=
    match parts with
    | [p0; p1] =>
        let! r := int p0 in let! c := int p1 in Ok (Some (r, c))
    | _ =>
        match s with
        | [c0; c1] =>
            if isdigit_char c0 && isdigit_char c1
            then let! r := int [c0] in let! c := int [c1] in Ok (Some (r, c))
            else Ok None
        | _ => Ok None
        end
    end in
  match rc with
  | Some (r, c) =>
      if (1 <=? r) && (r <=? 3) && (1 <=? c) && (c <=? 3)
      then Ok (Some ((r - 1) * 3 + (c - 1)))
      else Ok None
  | None => Ok None
  end.

(** [human_turn], reading the lines that [input] returns from [inputs];
    at the end of the input, [input] raises [EOFError].  It returns the
    board and the lines that were not read. *)
Fixpoint human_turn (inputs : list str) (b : board) : result (board * list str) :=
  match inputs with
  | [] => Raise EOFError
  | line :: rest =>
      let raw := strip line in
      let! m := parse_move raw in
      match m with
      | None => human_turn rest b
      | Some m =>
          let! c := getitem b m in
          if negb (cell_eqb c EMPTY) then human_turn rest b
          else let! b := setitem b m HUMAN in Ok (b, rest)
      end
  end.

(** ** Game flow *)

Inductive outcome : Type := HumanWin | AIWin | Draw.

(** Depth bound handed to the search: nine cells and the leaf below. *)
Definition search_fuel : nat := 10.

(** One iteration of the loop of [game_loop]; [continue] is the rest of
    the loop. *)
Definition game_step (continue : list str -> board -> bool -> result outcome)
    (inputs : list str) (b : board) (turn_is_human : bool) : result outcome :=
  let! (b, inputs) :=
    if turn_is_human then human_turn inputs b
    else
      let! (m, b) := best_ai_move USE_ALPHA_BETA search_fuel b in
      match m with
      | None => Raise TypeError
      | Some m => let! b := setitem b m AI in Ok (b, inputs)
      end in
  let! w := winner b in
  if is_mark w HUMAN then Ok HumanWin
  else if is_mark w AI then Ok AIWin
  else if is_nil (available_moves b) then Ok Draw
  else continue inputs b (negb turn_is_human).

(** The loop of [game_loop], at most [turns] iterations of it. *)
Fixpoint game_turns (turns : nat) (inputs : list str) (b : board)
    (turn_is_human : bool) : result outcome :=
  match turns with
  | 0 => OutOfFuel
  | S turns => game_step (game_turns turns) inputs b turn_is_human
  end.

Definition game_loop (human_first : bool) (turns : nat) (inputs : list str)
  : result outcome :=
  game_turns turns inputs empty_board human_first.

(** ** Display *)

(** The one-character string that a cell holds. *)
Definition cell_char (c : cell) : ascii :=
  match c with X => "X" | O => "O" | Blank => " " end%char.

(** The middle dot that [print_board] shows for an empty cell: U+00B7. *)
Definition middle_dot : ascii := ascii_of_nat 183.

(** [cell(c)] of [print_board] *)
Definition cell_text (c : cell) : ascii :=
  if negb (cell_eqb c EMPTY) then cell_char c else middle_dot.

Definition newline : ascii := ascii_of_nat 10.

(** [str(n)] of a natural number: its decimal digits. *)
Definition str_of_nat (n : nat) : str :=
  list_ascii_of_string (NilEmpty.string_of_uint (Nat.to_uint n)).

(** [print(s)]: the text on standard output grows by [s] and a newline. *)
Definition print (out : str) (s : str) : str := out ++ s ++ [newline].

(** The f-string of one row: [row[0]], [row[1]], [row[2]] are read in
    that order. *)
Definition row_text (r : nat) (row : board) : result str :=
  let! c0 := getitem row 0 in
  let! c1 := getitem row 1 in
  let! c2 := getitem row 2 in
  Ok (str_of_nat r ++ line " " ++ [cell_text c0] ++ line " | "
      ++ [cell_text c1] ++ line " | " ++ [cell_text c2]).

(** [for r, row in enumerate(rows, start=1): ...]: the text written so far
    is kept when a subscript raises. *)
Fixpoint print_rows (r : nat) (rows : list board) (out : str)
  : str * result unit :=
  match rows with
  | [] => (out, Ok tt)
  | row :: rest =>
      match row_text r row with
      | Ok s =>
          let out := print out s in
          let out := if r <? 3 then print out (line "  ---+---+---") else out in
          print_rows (S r) rest out
      | Raise e => (out, Raise e)
      | OutOfFuel => (out, OutOfFuel)
      end
  end.

(** [print_board]: the text it adds to standard output, and how it ends.
    The slices [board[i:i+3]] never raise. *)
Definition print_board (b : board) : str * result unit :=
  let rows := map (fun i => take 3 (drop i b)) [0; 3; 6] in
  let out := print [] (newline :: line "  1   2   3") in
  match print_rows 1 rows out with
  | (out, Ok _) => (print out [], Ok tt)
  | (out, r) => (out, r)
  end.

(** The line that [game_loop] prints after the engine's move. *)
Definition ai_chose_message (m : nat) : str :=
  line "AI chose: row " ++ str_of_nat (m / 3 + 1)
  ++ line ", col " ++ str_of_nat (m mod 3 + 1).

(** ** The chatbot of [Simple Chatbot in Python.py]

    The same strings, the same [input]: a list of lines, [EOFError] at its
    end.  On code points below 256 [str.lower] moves the letters A-Z and
    the capital letters from 192 to 222, the sign 215 apart, up by 32. *)

Definition lower_char (c : ascii) : ascii :=
  let n := nat_of_ascii c in
  if ((65 <=? n) && (n <=? 90))
     || ((192 <=? n) && (n <=? 222) && negb (n =? 215))
  then ascii_of_nat (n + 32) else c.

(** [s.lower()] *)
Definition lower (s : str) : str := map lower_char s.

Fixpoint starts_with (p s : str) : bool :=
  match p, s with
  | [], _ => true
  | _ :: _, [] => false
  | a :: p, c :: s => Ascii.eqb a c && starts_with p s
  end.

(** [p in s] *)
Fixpoint contains (p s : str) : bool :=
  starts_with p s ||
  match s with
  | [] => false
  | _ :: t => contains p t
  end.

Fixpoint str_eqb (s t : str) : bool :=
  match s, t with
  | [], [] => true
  | a :: s, c :: t => Ascii.eqb a c && str_eqb s t
  | _, _ => false
  end.

(** The five answers of the chatbot. *)
Inductive answer : Type := Hello | Fine | Name | Goodbye | Sorry.

Definition answer_text (a : answer) : str :=
  match a with
  | Hello => line "Chatbot: Hello! How are you?"
  | Fine => line "Chatbot: I'm just a bot, but I'm doing fine. Thanks for asking!"
  | Name => line "Chatbot: I'm a simple chatbot written in Python."
  | Goodbye => line "Chatbot: Goodbye! Have a great day."
  | Sorry => line "Chatbot: Sorry, I didn't understand that."
  end.

(** The chain of tests on one line of input. *)
Definition answer_to (raw : str) : answer :=
  let user_input := lower raw in
  if str_eqb user_input (line "hi") || str_eqb user_input (line "hello") then Hello
  else if contains (line "how are you") user_input then Fine
  else if contains (line "your name") user_input then Name
  else if contains (line "bye") user_input then Goodbye
  else Sorry.

(** The loop of [chatbot]: the lines printed, and how it ends. *)
Fixpoint chat_loop (inputs : list str) (out : list str)
  : list str * result unit :=
  match inputs with
  | [] => (out, Raise EOFError)
  | raw :: rest =>
      let a := answer_to raw in
      let out := out ++ [answer_text a] in
      match a with
      | Goodbye => (out, Ok tt)
      | _ => chat_loop rest out
      end
  end.

Definition chatbot (inputs : list str) : list str * result unit :=
  chat_loop inputs [line "Chatbot: Hi! I'm a simple chatbot. Type 'bye' to exit."].

(** * Part II: notions used in the statements *)

(** ** Lines and empty cells *)

Definition is_empty_at (b : board) (i : nat) : bool :=
  match b !! i with
  | Some c => cell_eqb c EMPTY
  | None => false
  end.

(** Line [l] is complete with mark [p]: its three cells hold [p], and [p]
    is not [EMPTY]. *)
Definition complete_line (b : board) (l : nat * nat * nat) (p : cell) : Prop :=
  b !! l.1.1 = Some p /\ b !! l.1.2 = Some p /\ b !! l.2 = Some p /\ p <> EMPTY.

Definition line_in_range (b : board) (l : nat * nat * nat) : Prop :=
  l.1.1 < length b /\ l.1.2 < length b /\ l.2 < length b.

(** What the scan returns: the mark of the first complete line with none
    complete before it, or [None] when no line is complete. *)
Definition first_complete (lines : list (nat * nat * nat)) (b : board)
    (r : result (option cell)) : Prop :=
  match r with
  | Ok (Some p) =>
      exists n l, lines !! n = Some l /\ complete_line b l p /\
        forall n' l' p', n' < n -> lines !! n' = Some l' -> ~ complete_line b l' p'
  | Ok None => forall l p, l ∈ lines -> ~ complete_line b l p
  | _ => False
  end.

(** The eight lines, by kind. *)
Definition row_line (r : nat) : nat * nat * nat := (3 * r, 3 * r + 1, 3 * r + 2).
Definition col_line (c : nat) : nat * nat * nat := (c, c + 3, c + 6).
Definition diagonal_lines : list (nat * nat * nat) := [(0, 4, 8); (2, 4, 6)].

(** An illegal board with two complete lines: the first row wins. *)
Definition two_lines_board : board := [X; X; X; O; O; O; Blank; Blank; Blank].

Definition sample_board : board := [X; O; X; X; O; Blank; Blank; Blank; O].

(** ** The order on scores *)

Definition ext_lt (a b : ext) : Prop :=
  match a, b with
  | _, NegInf => False
  | NegInf, _ => True
  | PosInf, _ => False
  | Fin _, PosInf => True
  | Fin x, Fin y => (x < y)%Z
  end.

Definition ext_le (a b : ext) : Prop :=
  match a, b with
  | NegInf, _ => True
  | _, PosInf => True
  | Fin x, Fin y => (x <= y)%Z
  | _, _ => False
  end.

(** [max] and [min] by cases on the infinite points, for arithmetic. *)
Definition ext_join (a b : ext) : ext :=
  match a, b with
  | NegInf, x | x, NegInf => x
  | PosInf, _ | _, PosInf => PosInf
  | Fin x, Fin y => Fin (Z.max x y)
  end.

Definition ext_meet (a b : ext) : ext :=
  match a, b with
  | PosInf, x | x, PosInf => x
  | NegInf, _ | _, NegInf => NegInf
  | Fin x, Fin y => Fin (Z.min x y)
  end.

(** ** Plain minimax on immutable boards

    The search of the specification without the pruning step and without
    mutation: every candidate is tried on a fresh board [<[m := mark]> b].
    It is the reference that both modes of [minimax] are compared with. *)

Section PlainSearch.

Variable rec : bool -> board -> search_result.

Fixpoint plain_max_loop (order : list nat) (best_score : ext)
    (best_move : option nat) (b : board) : search_result :=
  match order with
  | [] => (best_score, best_move)
  | m :: rest =>
      let s := fst (rec false (<[m := AI]> b)) in
      if ext_ltb best_score s then plain_max_loop rest s (Some m) b
      else plain_max_loop rest best_score best_move b
  end.

Fixpoint plain_min_loop (order : list nat) (best_score : ext)
    (best_move : option nat) (b : board) : search_result :=
  match order with
  | [] => (best_score, best_move)
  | m :: rest =>
      let s := fst (rec true (<[m := HUMAN]> b)) in
      if ext_ltb s best_score then plain_min_loop rest s (Some m) b
      else plain_min_loop rest best_score best_move b
  end.

End PlainSearch.

Fixpoint plain_minimax (fuel : nat) (maximizing : bool) (b : board)
  : search_result :=
  match fuel with
  | 0 => (Fin 0, None)
  | S fuel =>
      match is_terminal b, score b, move_order b with
      | Ok true, Ok s, _ => (Fin s, None)
      | Ok false, _, Ok order =>
          if maximizing
          then plain_max_loop (plain_minimax fuel) order NegInf None b
          else plain_min_loop (plain_minimax fuel) order PosInf None b
      | _, _, _ => (Fin 0, None)
      end
  end.

(** Number of empty cells: the depth that is left to search. *)
Definition blanks (b : board) : nat :=
  length (List.filter (fun c => cell_eqb c EMPTY) b).

(** [v] is what a search in the window [(alpha, beta)] may return for a
    position of plain value [t]: exact inside the window, otherwise a bound
    on the side where it fails. *)
Definition bounded_by (alpha beta v t : ext) : Prop :=
  (ext_le v alpha -> ext_le t v) /\
  (ext_le beta v -> ext_le v t) /\
  (ext_lt alpha v -> ext_lt v beta -> ext_le t v /\ ext_le v t).

Section Children.

Variable rec : bool -> ext -> ext -> board -> result (search_result * board).
Variable ref : bool -> board -> search_result.
Variable b : board.

(** The recursive call on the child [<[m := c]> b] returns and restores. *)
Definition child_returns (mx : bool) (c : cell) (m : nat) : Prop :=
  b !! m = Some EMPTY /\
  forall alpha beta, exists r,
    rec mx alpha beta (<[m := c]> b) = Ok (r, <[m := c]> b).

(** ... and returns the plain result, whatever the window. *)
Definition child_exact (mx : bool) (c : cell) (m : nat) : Prop :=
  b !! m = Some EMPTY /\
  forall alpha beta,
    rec mx alpha beta (<[m := c]> b) = Ok (ref mx (<[m := c]> b), <[m := c]> b).

(** ... and returns a value bounded by the plain one in a proper window. *)
Definition child_bounded (mx : bool) (c : cell) (m : nat) : Prop :=
  b !! m = Some EMPTY /\
  forall alpha beta, ext_lt alpha beta -> exists s mv,
    rec mx alpha beta (<[m := c]> b) = Ok ((s, mv), <[m := c]> b) /\
    bounded_by alpha beta s (fst (ref mx (<[m := c]> b))).

End Children.

(** ** Legal play *)

(** The opponent's mark. *)
Definition other (c : cell) : cell :=
  match c with X => O | O => X | Blank => Blank end.

(** Boards reachable through legal play, with the mark that moves next:
    marks alternate from the empty board, one empty cell is filled per
    turn, and play stops at a terminal board. *)
Inductive legal_play : cell -> board -> Prop :=
| legal_start (c : cell) : c <> EMPTY -> legal_play c empty_board
| legal_move (c : cell) (b : board) (m : nat) :
    legal_play c b -> is_terminal b = Ok false -> b !! m = Some EMPTY ->
    legal_play (other c) (<[m := c]> b).

(** X has completed the first row. *)
Definition won_board : board := [X; X; X; O; O; Blank; Blank; Blank; Blank].

(** ** Refused lines and the exhaustive game check *)

(** A line is refused when it parses to no index, or to an occupied cell. *)
Definition refused (b : board) (line : str) : Prop :=
  parse_move (strip line) = Ok None \/
  exists m c, parse_move (strip line) = Ok (Some m) /\
    b !! m = Some c /\ c <> EMPTY.

(** What is allowed after a turn: the engine has won, or the board is full
    with no winner, or play goes on from a position that is safe. *)
Definition after_turn (safe : board -> bool) (b : board) : bool :=
  match winner b with
  | Ok (Some c) => cell_eqb c AI
  | Ok None => is_nil (available_moves b) || safe b
  | _ => false
  end.

(** Exhaustive check of the game tree from [b]: every empty cell for the
    human, the move of [best_ai_move] for the engine. *)
Fixpoint never_lost (turns : nat) (b : board) (turn_is_human : bool) : bool :=
  match turns with
  | 0 => false
  | S turns =>
      if turn_is_human then
        forallb (fun m => after_turn (fun b' => never_lost turns b' false)
                            (<[m := HUMAN]> b))
                (available_moves b)
      else
        match best_ai_move USE_ALPHA_BETA search_fuel b with
        | Ok (Some m, b) =>
            match setitem b m AI with
            | Ok b => after_turn (fun b' => never_lost turns b' true) b
            | _ => false
            end
        | _ => false
        end
  end.

(** The ways a game may end: a win of the engine, a draw, or the human's
    input running out or being refused by [int]. *)
Definition acceptable (r : result outcome) : Prop :=
  r = Ok AIWin \/ r = Ok Draw \/ r = Raise EOFError \/ r = Raise ValueError.

(** ** Values of positions, and reading the display back *)

(** The value that the search gives a position in the default window. *)
Definition search_value (ab : bool) (fuel : nat) (mx : bool) (b : board)
  : option ext :=
  match minimax ab fuel mx NegInf PosInf b with
  | Ok ((v, _), _) => Some v
  | _ => None
  end.

(** The cell that a character of the display stands for. *)
Definition read_cell (a : ascii) : cell :=
  if Ascii.eqb a "X" then X else if Ascii.eqb a "O" then O else Blank.

(** The nine cells, read at their places in the text of [print_board]. *)
Definition read_board (out : str) : board :=
  map (fun i => read_cell (nth i out " "%char))
      [15; 19; 23; 41; 45; 49; 67; 71; 75].

(** The values a position can have: a loss, a draw or a win of the engine. *)
Definition score_like (v : ext) : Prop :=
  v = Fin (-1) \/ v = Fin 0 \/ v = Fin 1.

(** The recursive call on the child [<[m := c]> b] returns a score and
    restores the board, whatever the window. *)
Definition child_scored
    (rec : bool -> ext -> ext -> board -> result (search_result * board))
    (b : board) (mx : bool) (c : cell) (m : nat) : Prop :=
  b !! m = Some EMPTY /\
  forall alpha beta, exists s mv,
    rec mx alpha beta (<[m := c]> b) = Ok ((s, mv), <[m := c]> b) /\
    score_like s.


(** What [parse_move] makes of a row and a column. *)
Definition cell_index (r c : nat) : option nat :=
  if (1 <=? r) && (r <=? 3) && (1 <=? c) && (c <=? 3)
  then Some ((r - 1) * 3 + (c - 1)) else None.

(** * Part III: properties *)

(** ** Empty cells and [available_moves] *)

Lemma cell_eqb_eq (c d : cell) : cell_eqb c d = true <-> c = d.
Proof. destruct c, d; simpl; split; congruence. Qed.

Lemma cell_eqb_refl (c : cell) : cell_eqb c c = true.
Proof. by destruct c. Qed.

Lemma is_empty_at_spec (b : board) (i : nat) :
  is_empty_at b i = true <-> b !! i = Some EMPTY.
Proof.
  unfold is_empty_at. destruct (b !! i) as [c|]; [|split; congruence].
  rewrite cell_eqb_eq. split; congruence.
Qed.

Lemma getitem_lt (b : board) (i : nat) :
  i < length b -> exists c, b !! i = Some c /\ getitem b i = Ok c.
Proof.
  intros Hi. destruct (lookup_lt_is_Some_2 b i Hi) as [c Hc].
  exists c. unfold getitem. by rewrite Hc.
Qed.

Lemma empty_among_filter (idxs : list nat) (b : board) :
  Forall (fun i => i < length b) idxs ->
  empty_among idxs b = Ok (List.filter (is_empty_at b) idxs).
Proof.
  induction 1 as [|i t Hi _ IH]; [done|].
  destruct (getitem_lt b i Hi) as (c & Hc & Hg).
  assert (is_empty_at b i = cell_eqb c EMPTY) as He
    by (unfold is_empty_at; by rewrite Hc).
  cbn [empty_among List.filter]. rewrite Hg, IH, He. done.
Qed.

Lemma move_order_filter (b : board) :
  length b = 9 ->
  move_order b = Ok (List.filter (is_empty_at b) [4; 0; 2; 6; 8; 1; 3; 5; 7]).
Proof.
  intros Hlen. unfold move_order.
  destruct (getitem_lt b 4) as (c & Hc & Hg); [lia|].
  rewrite Hg. cbn [bind].
  rewrite !empty_among_filter by (repeat constructor; lia).
  cbn [bind]. change [4; 0; 2; 6; 8; 1; 3; 5; 7] with ([4] ++ [0; 2; 6; 8] ++ [1; 3; 5; 7]).
  assert (is_empty_at b 4 = cell_eqb c EMPTY) as He
    by (unfold is_empty_at; by rewrite Hc).
  rewrite !List.filter_app. cbn [List.filter]. rewrite He. done.
Qed.

(** Membership in [available_moves], by the position of the cell. *)
Lemma available_from_elem (l : list cell) (i j : nat) :
  j ∈ map fst (List.filter (fun iv => cell_eqb (snd iv) EMPTY) (enumerate_from i l))
  <-> exists k, j = i + k /\ l !! k = Some EMPTY.
Proof.
  revert i. induction l as [|c l IH]; intros i; simpl.
  - split; [by intros ?%elem_of_nil | by intros (k & _ & ?)].
  - assert (Htail : j ∈ map fst (List.filter (fun iv => cell_eqb (snd iv) EMPTY)
                                   (enumerate_from (S i) l))
                    <-> exists k, j = i + S k /\ l !! k = Some EMPTY).
    { rewrite IH. split; intros (k & -> & Hk); exists k; split; auto; lia. }
    destruct (cell_eqb c EMPTY) eqn:Hc; simpl.
    + rewrite elem_of_cons, Htail. apply cell_eqb_eq in Hc as ->. split.
      * intros [-> | (k & -> & Hk)]; [exists 0 | exists (S k)]; split; auto; lia.
      * intros ([|k] & -> & Hk); [left; lia | right; exists k; auto].
    + rewrite Htail. split.
      * intros (k & -> & Hk). exists (S k). auto.
      * intros ([|k] & -> & Hk); [|exists k; auto].
        simpl in Hk. injection Hk as ->. by rewrite cell_eqb_refl in Hc.
Qed.

Lemma available_from_NoDup (l : list cell) (i : nat) :
  NoDup (map fst (List.filter (fun iv => cell_eqb (snd iv) EMPTY) (enumerate_from i l))).
Proof.
  revert i. induction l as [|c l IH]; intros i; simpl; [constructor|].
  destruct (cell_eqb c EMPTY); simpl; [|apply IH].
  constructor; [|apply IH].
  rewrite available_from_elem. intros (k & Hk & _). lia.
Qed.

Lemma available_moves_elem (b : board) (i : nat) :
  i ∈ available_moves b <-> b !! i = Some EMPTY.
Proof.
  unfold available_moves, enumerate. rewrite available_from_elem. split.
  - by intros (k & -> & Hk).
  - intros Hi. by exists i.
Qed.

Lemma available_moves_NoDup (b : board) : NoDup (available_moves b).
Proof. apply available_from_NoDup. Qed.

(** ** [winner] *)

Lemma first_complete_skip (lines : list (nat * nat * nat)) (b : board)
    (l : nat * nat * nat) (r : result (option cell)) :
  (forall p, ~ complete_line b l p) ->
  first_complete lines b r -> first_complete (l :: lines) b r.
Proof.
  intros Hl. destruct r as [[p|]| |]; simpl; try done.
  - intros (n & l0 & Hn & Hc & Hfirst). exists (S n), l0. split; [done|]. split; [done|].
    intros [|n'] l' p' Hlt Hl'; simpl in Hl'.
    + injection Hl' as <-. apply Hl.
    + apply (Hfirst n'); [lia | done].
  - intros Hnone l0 p [->|Hin]%elem_of_cons; [apply Hl | by apply Hnone].
Qed.

Lemma winner_in_first_complete (lines : list (nat * nat * nat)) (b : board) :
  Forall (line_in_range b) lines ->
  first_complete lines b (winner_in lines b).
Proof.
  induction 1 as [|[[i j] k] rest (Hi & Hj & Hk) _ IH].
  - simpl. intros l p Hin. by apply elem_of_nil in Hin.
  - simpl in Hi, Hj, Hk.
    destruct (getitem_lt b i Hi) as (x & Hx & Gx).
    destruct (getitem_lt b j Hj) as (y & Hy & Gy).
    destruct (getitem_lt b k Hk) as (z & Hz & Gz).
    cbn [winner_in]. rewrite Gx. cbn [bind].
    destruct (cell_eqb x EMPTY) eqn:Ex.
    { apply first_complete_skip; [|done]. intros p (Hp & _ & _ & Hne).
      simpl in Hp. apply cell_eqb_eq in Ex. congruence. }
    rewrite Gy. cbn [bind]. destruct (cell_eqb x y) eqn:Exy; cbn [negb].
    2:{ apply first_complete_skip; [|done]. intros p (Hp & Hq & _).
        simpl in Hp, Hq. assert (x = y) as Heq by congruence.
        apply cell_eqb_eq in Heq. congruence. }
    rewrite Gz. cbn [bind]. destruct (cell_eqb y z) eqn:Eyz; cbn [negb].
    2:{ apply first_complete_skip; [|done]. intros p (_ & Hq & Hr & _).
        simpl in Hq, Hr. assert (y = z) as Heq by congruence.
        apply cell_eqb_eq in Heq. congruence. }
    apply cell_eqb_eq in Exy as <-. apply cell_eqb_eq in Eyz as <-.
    exists 0, (i, j, k). repeat split; try done.
    + intros ->. by rewrite cell_eqb_refl in Ex.
    + intros n' l' p' Hlt. lia.
Qed.

Lemma WIN_LINES_in_range (b : board) :
  length b = 9 -> Forall (line_in_range b) WIN_LINES.
Proof.
  intros Hlen. unfold WIN_LINES, line_in_range.
  repeat constructor; simpl; lia.
Qed.

Lemma winner_first_complete (b : board) :
  length b = 9 -> first_complete WIN_LINES b (winner b).
Proof. intros Hlen. by apply winner_in_first_complete, WIN_LINES_in_range. Qed.

(** C7: on every 9-cell board, legal or not, [winner] returns without
    raising; it returns the mark of the first line, in the order three rows,
    three columns, two diagonals, whose three cells are equal and not
    [EMPTY], and [None] when there is no such line. *)
Theorem winner_first_line_in_fixed_order (b : board) :
  length b = 9 ->
  WIN_LINES = map row_line [0; 1; 2] ++ map col_line [0; 1; 2] ++ diagonal_lines /\
  match winner b with
  | Ok (Some p) =>
      exists n l, WIN_LINES !! n = Some l /\ complete_line b l p /\
        forall n' l' p', n' < n -> WIN_LINES !! n' = Some l' -> ~ complete_line b l' p'
  | Ok None => forall l p, l ∈ WIN_LINES -> ~ complete_line b l p
  | Raise _ | OutOfFuel => False
  end.
Proof.
  intros Hlen. split; [reflexivity|].
  pose proof (winner_first_complete b Hlen) as H.
  unfold first_complete in H. by destruct (winner b) as [[p|]| |].
Qed.

Lemma winner_first_line_in_fixed_order_witness :
  length two_lines_board = 9 /\ winner two_lines_board = Ok (Some X) /\
  WIN_LINES = map row_line [0; 1; 2] ++ map col_line [0; 1; 2] ++ diagonal_lines.
Proof.
  split; [reflexivity|]. split; [reflexivity|].
  exact (proj1 (winner_first_line_in_fixed_order two_lines_board eq_refl)).
Defined.

(** ** [move_order] *)

(** C6: on every 9-cell board [move_order] returns the empty indices in the
    fixed priority: 4 if empty, then the empty cells among 0, 2, 6, 8 in that
    order, then the empty cells among 1, 3, 5, 7 in that order.  The result
    is a function of the board contents alone. *)
Theorem move_order_center_corners_edges (b : board) :
  length b = 9 ->
  move_order b =
    Ok (List.filter (is_empty_at b) [4] ++
        List.filter (is_empty_at b) [0; 2; 6; 8] ++
        List.filter (is_empty_at b) [1; 3; 5; 7]) /\
  forall i, is_empty_at b i = true <-> b !! i = Some EMPTY.
Proof.
  intros Hlen. split; [|intros i; apply is_empty_at_spec].
  rewrite move_order_filter by done.
  change [4; 0; 2; 6; 8; 1; 3; 5; 7] with ([4] ++ [0; 2; 6; 8] ++ [1; 3; 5; 7]).
  by rewrite !List.filter_app.
Qed.

Lemma move_order_center_corners_edges_witness :
  length sample_board = 9 /\ move_order sample_board = Ok [6; 5; 7].
Proof.
  split; [reflexivity|].
  exact (proj1 (move_order_center_corners_edges sample_board eq_refl)).
Defined.

Lemma priority_elem (i : nat) : i < 9 -> i ∈ [4; 0; 2; 6; 8; 1; 3; 5; 7].
Proof.
  intros Hi. do 9 (destruct i as [|i]; [by apply (bool_decide_unpack _)|]). lia.
Qed.

Lemma move_order_elem (b : board) (order : list nat) (i : nat) :
  length b = 9 -> move_order b = Ok order ->
  i ∈ order <-> b !! i = Some EMPTY.
Proof.
  intros Hlen Ho. rewrite move_order_filter in Ho by done.
  assert (order = List.filter (is_empty_at b) [4; 0; 2; 6; 8; 1; 3; 5; 7])
    as -> by congruence. clear Ho.
  rewrite list_elem_of_In, List.filter_In, <- list_elem_of_In, is_empty_at_spec.
  split; [tauto|]. intros Hi. split; [|done].
  apply priority_elem. apply lookup_lt_Some in Hi. lia.
Qed.

Lemma move_order_NoDup (b : board) (order : list nat) :
  length b = 9 -> move_order b = Ok order -> NoDup order.
Proof.
  intros Hlen Ho. rewrite move_order_filter in Ho by done.
  assert (order = List.filter (is_empty_at b) [4; 0; 2; 6; 8; 1; 3; 5; 7])
    as -> by congruence. clear Ho.
  apply NoDup_ListNoDup, List.NoDup_filter, NoDup_ListNoDup.
  by apply (bool_decide_unpack _).
Qed.

(** C10: on every 9-cell board [move_order] is a permutation of
    [available_moves]: exactly the indices of the [EMPTY] cells, each once. *)
Theorem move_order_permutation_of_available_moves (b : board) :
  length b = 9 ->
  exists order, move_order b = Ok order /\
    order ≡ₚ available_moves b /\ NoDup order /\
    forall i, i ∈ order <-> b !! i = Some EMPTY.
Proof.
  intros Hlen. eexists. split; [by apply move_order_filter|].
  pose proof (move_order_filter b Hlen) as Ho.
  pose proof (move_order_NoDup b _ Hlen Ho) as Hnd.
  split; [|split; [done|]].
  - apply NoDup_Permutation; [done | apply available_moves_NoDup|].
    intros i. by rewrite (move_order_elem b _ i Hlen Ho), available_moves_elem.
  - intros i. by apply move_order_elem.
Qed.

Lemma move_order_permutation_of_available_moves_witness :
  length sample_board = 9 /\
  exists order, move_order sample_board = Ok order /\
    order ≡ₚ available_moves sample_board /\ NoDup order /\
    forall i, i ∈ order <-> sample_board !! i = Some EMPTY.
Proof.
  split; [reflexivity|].
  exact (move_order_permutation_of_available_moves sample_board eq_refl).
Defined.

(** ** The order on scores *)

Lemma ext_ltb_true (a b : ext) : ext_ltb a b = true <-> ext_lt a b.
Proof. destruct a, b; simpl; rewrite ?Z.ltb_lt; intuition congruence. Qed.

Lemma ext_ltb_false (a b : ext) : ext_ltb a b = false <-> ext_le b a.
Proof. destruct a, b; simpl; rewrite ?Z.ltb_ge; intuition congruence. Qed.

Lemma ext_leb_true (a b : ext) : ext_leb a b = true <-> ext_le a b.
Proof. unfold ext_leb. rewrite negb_true_iff. apply ext_ltb_false. Qed.

Lemma ext_leb_false (a b : ext) : ext_leb a b = false <-> ext_lt b a.
Proof. unfold ext_leb. rewrite negb_false_iff. apply ext_ltb_true. Qed.

Lemma ext_le_antisym (a b : ext) : ext_le a b -> ext_le b a -> a = b.
Proof. destruct a, b; simpl; try tauto. intros. f_equal. lia. Qed.

Lemma ext_max_join (a b : ext) : ext_max a b = ext_join a b.
Proof.
  destruct a, b; try done. unfold ext_max. simpl.
  destruct (Z.ltb_spec z z0); f_equal; lia.
Qed.

Lemma ext_min_meet (a b : ext) : ext_min a b = ext_meet a b.
Proof.
  destruct a, b; try done. unfold ext_min. simpl.
  destruct (Z.ltb_spec z0 z); f_equal; lia.
Qed.

(** Case analysis on every score in sight, then linear arithmetic. *)
Ltac ext_cases :=
  cbn [ext_lt ext_le ext_join ext_meet] in *;
  try contradiction;
  lazymatch goal with
  | x : ext |- _ => destruct x; ext_cases
  | _ => first [ lia | tauto ]
  end.

Ltac ext_lia := rewrite ?ext_max_join, ?ext_min_meet in *; ext_cases.

Lemma ext_max_le_l (a b : ext) : ext_le a (ext_max a b).
Proof. ext_lia. Qed.

Lemma ext_max_le_r (a b : ext) : ext_le b (ext_max a b).
Proof. ext_lia. Qed.

Lemma ext_max_assoc (a b c : ext) :
  ext_max (ext_max a b) c = ext_max a (ext_max b c).
Proof. apply ext_le_antisym; ext_lia. Qed.

Lemma ext_min_assoc (a b c : ext) :
  ext_min (ext_min a b) c = ext_min a (ext_min b c).
Proof. apply ext_le_antisym; ext_lia. Qed.

(** ** Placing a mark and taking it back *)

Lemma blanks_insert (b : board) (m : nat) (c : cell) :
  b !! m = Some EMPTY -> c <> EMPTY -> S (blanks (<[m := c]> b)) = blanks b.
Proof.
  unfold blanks. revert m. induction b as [|d b IH]; intros [|m] Hm Hc; try done.
  - simpl in Hm. injection Hm as ->. simpl.
    destruct (cell_eqb c EMPTY) eqn:E; [by apply cell_eqb_eq in E|done].
  - simpl in Hm. simpl. destruct (cell_eqb d EMPTY); simpl; by rewrite IH.
Qed.

Lemma setitem_lookup (b : board) (m : nat) (c d : cell) :
  b !! m = Some d -> setitem b m c = Ok (<[m := c]> b).
Proof.
  intros Hm. unfold setitem. apply lookup_lt_Some in Hm.
  by destruct (Nat.ltb_spec m (length b)); [|lia].
Qed.

(** Placing a mark on an empty cell and taking it back restores the board. *)
Lemma setitem_undo (b : board) (m : nat) (c : cell) :
  b !! m = Some EMPTY -> setitem (<[m := c]> b) m EMPTY = Ok b.
Proof.
  intros Hm. unfold setitem. rewrite length_insert.
  apply lookup_lt_Some in Hm as Hlt.
  destruct (Nat.ltb_spec m (length b)); [|lia].
  by rewrite list_insert_insert_eq, list_insert_id.
Qed.

(** One iteration of each loop, when the candidate cell is empty and the
    recursive call returns with the board it was given. *)
Lemma max_loop_cons ab rec m rest bs bm alpha beta (b : board) s mv :
  b !! m = Some EMPTY ->
  rec false alpha beta (<[m := AI]> b) = Ok ((s, mv), <[m := AI]> b) ->
  max_loop ab rec (m :: rest) bs bm alpha beta b =
    let bs' := ext_max bs s in
    let bm' := if ext_ltb bs s then Some m else bm in
    if ab then
      if ext_leb beta (ext_max alpha bs') then Ok ((bs', bm'), b)
      else max_loop ab rec rest bs' bm' (ext_max alpha bs') beta b
    else max_loop ab rec rest bs' bm' alpha beta b.
Proof.
  intros Hm Hrec. cbn [max_loop].
  rewrite (setitem_lookup _ _ _ _ Hm). cbn [bind]. rewrite Hrec. cbn [bind].
  rewrite (setitem_undo _ _ _ Hm). cbn [bind].
  unfold ext_max. by destruct (ext_ltb bs s).
Qed.

Lemma min_loop_cons ab rec m rest bs bm alpha beta (b : board) s mv :
  b !! m = Some EMPTY ->
  rec true alpha beta (<[m := HUMAN]> b) = Ok ((s, mv), <[m := HUMAN]> b) ->
  min_loop ab rec (m :: rest) bs bm alpha beta b =
    let bs' := ext_min bs s in
    let bm' := if ext_ltb s bs then Some m else bm in
    if ab then
      if ext_leb (ext_min beta bs') alpha then Ok ((bs', bm'), b)
      else min_loop ab rec rest bs' bm' alpha (ext_min beta bs') b
    else min_loop ab rec rest bs' bm' alpha beta b.
Proof.
  intros Hm Hrec. cbn [min_loop].
  rewrite (setitem_lookup _ _ _ _ Hm). cbn [bind]. rewrite Hrec. cbn [bind].
  rewrite (setitem_undo _ _ _ Hm). cbn [bind].
  unfold ext_min. by destruct (ext_ltb s bs).
Qed.

(** ** The two loops against the plain loops *)

Section Loops.

Variable rec : bool -> ext -> ext -> board -> result (search_result * board).
Variable ref : bool -> board -> search_result.
Variable b : board.

Lemma max_loop_returns ab order :
  Forall (child_returns rec b false AI) order ->
  forall bs bm alpha beta, exists r,
    max_loop ab rec order bs bm alpha beta b = Ok (r, b).
Proof.
  induction 1 as [|m rest [Hm Hc] _ IH]; intros bs bm alpha beta.
  - by eexists.
  - destruct (Hc alpha beta) as [[s mv] Hrec].
    rewrite (max_loop_cons _ _ _ _ _ _ _ _ _ _ _ Hm Hrec). cbn zeta.
    destruct ab; [destruct (ext_leb _ _); [by eexists|]|]; apply IH.
Qed.

Lemma min_loop_returns ab order :
  Forall (child_returns rec b true HUMAN) order ->
  forall bs bm alpha beta, exists r,
    min_loop ab rec order bs bm alpha beta b = Ok (r, b).
Proof.
  induction 1 as [|m rest [Hm Hc] _ IH]; intros bs bm alpha beta.
  - by eexists.
  - destruct (Hc alpha beta) as [[s mv] Hrec].
    rewrite (min_loop_cons _ _ _ _ _ _ _ _ _ _ _ Hm Hrec). cbn zeta.
    destruct ab; [destruct (ext_leb _ _); [by eexists|]|]; apply IH.
Qed.

(** Without pruning the loops are the plain loops. *)
Lemma max_loop_plain order :
  Forall (child_exact rec ref b false AI) order ->
  forall bs bm alpha beta,
    max_loop false rec order bs bm alpha beta b =
    Ok (plain_max_loop ref order bs bm b, b).
Proof.
  induction 1 as [|m rest [Hm Hc] _ IH]; intros bs bm alpha beta; [done|].
  specialize (Hc alpha beta). destruct (ref false (<[m := AI]> b)) as [s mv] eqn:Hr.
  rewrite (max_loop_cons _ _ _ _ _ _ _ _ _ _ _ Hm Hc). cbn zeta.
  rewrite IH. cbn [plain_max_loop]. rewrite Hr. cbn [fst].
  unfold ext_max. by destruct (ext_ltb bs s).
Qed.

Lemma min_loop_plain order :
  Forall (child_exact rec ref b true HUMAN) order ->
  forall bs bm alpha beta,
    min_loop false rec order bs bm alpha beta b =
    Ok (plain_min_loop ref order bs bm b, b).
Proof.
  induction 1 as [|m rest [Hm Hc] _ IH]; intros bs bm alpha beta; [done|].
  specialize (Hc alpha beta). destruct (ref true (<[m := HUMAN]> b)) as [s mv] eqn:Hr.
  rewrite (min_loop_cons _ _ _ _ _ _ _ _ _ _ _ Hm Hc). cbn zeta.
  rewrite IH. cbn [plain_min_loop]. rewrite Hr. cbn [fst].
  unfold ext_min. by destruct (ext_ltb s bs).
Qed.

(** The value of a plain loop is the running best joined with the value
    of the loop started afresh. *)
Lemma plain_max_loop_value order bs bm :
  fst (plain_max_loop ref order bs bm b) =
  ext_max bs (fst (plain_max_loop ref order NegInf None b)).
Proof.
  revert bs bm. induction order as [|m rest IH]; intros bs bm.
  - simpl. by destruct bs.
  - cbn [plain_max_loop].
    set (t := fst (ref false (<[m := AI]> b))). clearbody t.
    destruct (ext_ltb bs t) eqn:E1, (ext_ltb NegInf t) eqn:E2;
      rewrite ?(IH t (Some m)), ?(IH bs bm);
      set (L := fst (plain_max_loop ref rest NegInf None b)); clearbody L;
      rewrite ?ext_ltb_true, ?ext_ltb_false in *;
      apply ext_le_antisym; ext_lia.
Qed.

Lemma plain_min_loop_value order bs bm :
  fst (plain_min_loop ref order bs bm b) =
  ext_min bs (fst (plain_min_loop ref order PosInf None b)).
Proof.
  revert bs bm. induction order as [|m rest IH]; intros bs bm.
  - simpl. by destruct bs.
  - cbn [plain_min_loop].
    set (t := fst (ref true (<[m := HUMAN]> b))). clearbody t.
    destruct (ext_ltb t bs) eqn:E1, (ext_ltb t PosInf) eqn:E2;
      rewrite ?(IH t (Some m)), ?(IH bs bm);
      set (L := fst (plain_min_loop ref rest PosInf None b)); clearbody L;
      rewrite ?ext_ltb_true, ?ext_ltb_false in *;
      apply ext_le_antisym; ext_lia.
Qed.

End Loops.

(** ** Alpha-beta pruning does not change the value *)

Section Pruning.

Variable rec : bool -> ext -> ext -> board -> result (search_result * board).
Variable ref : bool -> board -> search_result.
Variable b : board.

Lemma plain_max_loop_cons_value m rest :
  fst (plain_max_loop ref (m :: rest) NegInf None b) =
  ext_max (fst (ref false (<[m := AI]> b)))
          (fst (plain_max_loop ref rest NegInf None b)).
Proof.
  cbn [plain_max_loop].
  destruct (ext_ltb NegInf (fst (ref false (<[m := AI]> b)))) eqn:E.
  - apply plain_max_loop_value.
  - apply ext_ltb_false in E.
    destruct (fst (ref false (<[m := AI]> b))); try done.
    unfold ext_max. simpl. by destruct (fst _).
Qed.

Lemma plain_min_loop_cons_value m rest :
  fst (plain_min_loop ref (m :: rest) PosInf None b) =
  ext_min (fst (ref true (<[m := HUMAN]> b)))
          (fst (plain_min_loop ref rest PosInf None b)).
Proof.
  cbn [plain_min_loop].
  destruct (ext_ltb (fst (ref true (<[m := HUMAN]> b))) PosInf) eqn:E.
  - apply plain_min_loop_value.
  - apply ext_ltb_false in E.
    destruct (fst (ref true (<[m := HUMAN]> b))); try done.
    unfold ext_min. simpl. by destruct (fst _).
Qed.

(** The maximizing loop in a proper window, started with a running best
    that does not exceed [alpha]. *)
Lemma max_loop_bounded order :
  Forall (child_bounded rec ref b false AI) order ->
  forall bs bm alpha beta, ext_lt alpha beta -> ext_le bs alpha ->
  exists v mv,
    max_loop true rec order bs bm alpha beta b = Ok ((v, mv), b) /\
    ext_le bs v /\
    bounded_by alpha beta v (fst (plain_max_loop ref order NegInf None b)).
Proof.
  induction 1 as [|m rest [Hm Hc] _ IH]; intros bs bm alpha beta Hab Hbs.
  - exists bs, bm. split; [done|]. unfold bounded_by. simpl.
    clear -Hab Hbs. split; [|repeat split]; ext_lia.
  - destruct (Hc alpha beta Hab) as (s & mv & Hrec & Hs).
    rewrite (max_loop_cons _ _ _ _ _ _ _ _ _ _ _ Hm Hrec). cbn zeta.
    rewrite plain_max_loop_cons_value.
    set (t := fst (ref false (<[m := AI]> b))) in *. clearbody t.
    set (L := fst (plain_max_loop ref rest NegInf None b)) in *. clearbody L.
    destruct (ext_leb beta (ext_max alpha (ext_max bs s))) eqn:Hcut.
    + apply ext_leb_true in Hcut. eexists _, _. split; [done|].
      clear -Hab Hbs Hs Hcut. unfold bounded_by in *.
      split; [|repeat split]; ext_lia.
    + apply ext_leb_false in Hcut.
      destruct (IH (ext_max bs s) (if ext_ltb bs s then Some m else bm)
                  (ext_max alpha (ext_max bs s)) beta)
        as (v & mv' & Hloop & Hv & Hb); [done | apply ext_max_le_r |].
      exists v, mv'. split; [done|].
      clear -Hab Hbs Hs Hcut Hv Hb. unfold bounded_by in *.
      split; [|repeat split]; ext_lia.
Qed.

(** The minimizing loop, dually: the running best is at least [beta]. *)
Lemma min_loop_bounded order :
  Forall (child_bounded rec ref b true HUMAN) order ->
  forall bs bm alpha beta, ext_lt alpha beta -> ext_le beta bs ->
  exists v mv,
    min_loop true rec order bs bm alpha beta b = Ok ((v, mv), b) /\
    ext_le v bs /\
    bounded_by alpha beta v (fst (plain_min_loop ref order PosInf None b)).
Proof.
  induction 1 as [|m rest [Hm Hc] _ IH]; intros bs bm alpha beta Hab Hbs.
  - exists bs, bm. split; [done|]. unfold bounded_by. simpl.
    clear -Hab Hbs. split; [|repeat split]; ext_lia.
  - destruct (Hc alpha beta Hab) as (s & mv & Hrec & Hs).
    rewrite (min_loop_cons _ _ _ _ _ _ _ _ _ _ _ Hm Hrec). cbn zeta.
    rewrite plain_min_loop_cons_value.
    set (t := fst (ref true (<[m := HUMAN]> b))) in *. clearbody t.
    set (L := fst (plain_min_loop ref rest PosInf None b)) in *. clearbody L.
    destruct (ext_leb (ext_min beta (ext_min bs s)) alpha) eqn:Hcut.
    + apply ext_leb_true in Hcut. eexists _, _. split; [done|].
      clear -Hab Hbs Hs Hcut. unfold bounded_by in *.
      split; [|repeat split]; ext_lia.
    + apply ext_leb_false in Hcut.
      destruct (IH (ext_min bs s) (if ext_ltb s bs then Some m else bm)
                  alpha (ext_min beta (ext_min bs s)))
        as (v & mv' & Hloop & Hv & Hb); [done | clear; ext_lia |].
      exists v, mv'. split; [done|].
      clear -Hab Hbs Hs Hcut Hv Hb. unfold bounded_by in *.
      split; [|repeat split]; ext_lia.
Qed.

Lemma plain_max_loop_top order bm :
  plain_max_loop ref order PosInf bm b = (PosInf, bm).
Proof.
  induction order as [|m rest IH]; [done|]. cbn [plain_max_loop].
  by destruct (fst (ref false (<[m := AI]> b))).
Qed.

Lemma plain_min_loop_bottom order bm :
  plain_min_loop ref order NegInf bm b = (NegInf, bm).
Proof.
  induction order as [|m rest IH]; [done|]. cbn [plain_min_loop].
  by destruct (fst (ref true (<[m := HUMAN]> b))).
Qed.

(** In the window that [best_ai_move] opens, [alpha] follows the running
    best and [beta] stays at infinity: the loop only stops early at a
    score of infinity, and it updates exactly when the plain loop does. *)
Lemma max_loop_root order :
  Forall (child_bounded rec ref b false AI) order ->
  forall bs bm, ext_lt bs PosInf ->
    max_loop true rec order bs bm bs PosInf b =
    Ok (plain_max_loop ref order bs bm b, b).
Proof.
  induction 1 as [|m rest [Hm Hc] _ IH]; intros bs bm Hbs; [done|].
  destruct (Hc bs PosInf Hbs) as (s & mv & Hrec & Hs).
  rewrite (max_loop_cons _ _ _ _ _ _ _ _ _ _ _ Hm Hrec). cbn zeta.
  cbn [plain_max_loop].
  set (t := fst (ref false (<[m := AI]> b))) in *. clearbody t.
  assert (ext_max bs (ext_max bs s) = ext_max bs s) as ->
    by (clear; apply ext_le_antisym; ext_lia).
  destruct (ext_ltb bs s) eqn:E.
  - apply ext_ltb_true in E.
    assert (t = s) as -> by
      (clear -E Hs; unfold bounded_by in Hs; apply ext_le_antisym; ext_lia).
    assert (ext_max bs s = s) as -> by (clear -E; apply ext_le_antisym; ext_lia).
    apply ext_ltb_true in E as ->.
    destruct (ext_leb PosInf s) eqn:Hcut.
    + apply ext_leb_true in Hcut. destruct s; try done.
      by rewrite plain_max_loop_top.
    + apply IH. by apply ext_leb_false in Hcut.
  - apply ext_ltb_false in E.
    assert (ext_ltb bs t = false) as ->
      by (apply ext_ltb_false; clear -E Hs; unfold bounded_by in Hs; ext_lia).
    assert (ext_max bs s = bs) as -> by (clear -E; apply ext_le_antisym; ext_lia).
    assert (ext_leb PosInf bs = false) as ->
      by (by apply ext_leb_false).
    by apply IH.
Qed.

Lemma min_loop_root order :
  Forall (child_bounded rec ref b true HUMAN) order ->
  forall bs bm, ext_lt NegInf bs ->
    min_loop true rec order bs bm NegInf bs b =
    Ok (plain_min_loop ref order bs bm b, b).
Proof.
  induction 1 as [|m rest [Hm Hc] _ IH]; intros bs bm Hbs; [done|].
  destruct (Hc NegInf bs Hbs) as (s & mv & Hrec & Hs).
  rewrite (min_loop_cons _ _ _ _ _ _ _ _ _ _ _ Hm Hrec). cbn zeta.
  cbn [plain_min_loop].
  set (t := fst (ref true (<[m := HUMAN]> b))) in *. clearbody t.
  assert (ext_min bs (ext_min bs s) = ext_min bs s) as ->
    by (clear; apply ext_le_antisym; ext_lia).
  destruct (ext_ltb s bs) eqn:E.
  - apply ext_ltb_true in E.
    assert (t = s) as -> by
      (clear -E Hs; unfold bounded_by in Hs; apply ext_le_antisym; ext_lia).
    assert (ext_min bs s = s) as -> by (clear -E; apply ext_le_antisym; ext_lia).
    apply ext_ltb_true in E as ->.
    destruct (ext_leb s NegInf) eqn:Hcut.
    + apply ext_leb_true in Hcut. destruct s; try done.
      by rewrite plain_min_loop_bottom.
    + apply IH. by apply ext_leb_false in Hcut.
  - apply ext_ltb_false in E.
    assert (ext_ltb t bs = false) as ->
      by (apply ext_ltb_false; clear -E Hs; unfold bounded_by in Hs; ext_lia).
    assert (ext_min bs s = bs) as -> by (clear -E; apply ext_le_antisym; ext_lia).
    assert (ext_leb bs NegInf = false) as ->
      by (by apply ext_leb_false).
    by apply IH.
Qed.

End Pruning.

(** ** [minimax] on 9-cell boards *)

Lemma winner_returns (b : board) : length b = 9 -> exists w, winner b = Ok w.
Proof.
  intros Hlen. pose proof (winner_first_complete b Hlen) as H.
  destruct (winner b) as [w| |]; [by exists w | done | done].
Qed.

(** On a 9-cell board the three queries of a search node return, and every
    candidate of [move_order] is an empty cell. *)
Lemma node_queries (b : board) :
  length b = 9 ->
  exists t s order,
    is_terminal b = Ok t /\ score b = Ok s /\ move_order b = Ok order /\
    Forall (fun m => b !! m = Some EMPTY) order.
Proof.
  intros Hlen. destruct (winner_returns b Hlen) as [w Hw].
  unfold is_terminal, score. rewrite Hw. cbn [bind].
  do 3 eexists. split; [done|]. split; [done|].
  split; [by apply move_order_filter|].
  apply Forall_forall. intros m Hm.
  by apply (move_order_elem b _ m Hlen (move_order_filter b Hlen)).
Qed.

Lemma blanks_child (b : board) (m fuel : nat) (c : cell) :
  b !! m = Some EMPTY -> c <> EMPTY -> blanks b < S fuel ->
  blanks (<[m := c]> b) < fuel.
Proof. intros Hm Hc Hb. pose proof (blanks_insert b m c Hm Hc). lia. Qed.

(** With more fuel than empty cells the search returns, and the board it
    hands back is the board it was given. *)
Lemma minimax_returns (ab : bool) (fuel : nat) :
  forall b : board, length b = 9 -> blanks b < fuel ->
  forall mx alpha beta, exists r, minimax ab fuel mx alpha beta b = Ok (r, b).
Proof.
  induction fuel as [|fuel IH]; intros b Hlen Hbl mx alpha beta; [lia|].
  destruct (node_queries b Hlen) as (t & s & order & Ht & Hs & Ho & Hempty).
  cbn [minimax]. rewrite Ht. cbn [bind]. destruct t.
  { rewrite Hs. by eexists. }
  rewrite Ho. cbn [bind]. destruct mx.
  - apply max_loop_returns. eapply Forall_impl; [exact Hempty|].
    intros m Hm. split; [done|]. intros a' b'.
    apply IH; [by rewrite length_insert | by apply blanks_child].
  - apply min_loop_returns. eapply Forall_impl; [exact Hempty|].
    intros m Hm. split; [done|]. intros a' b'.
    apply IH; [by rewrite length_insert | by apply blanks_child].
Qed.

(** With [USE_ALPHA_BETA = False], [minimax] is plain minimax. *)
Lemma minimax_unpruned (fuel : nat) :
  forall b : board, length b = 9 -> blanks b < fuel ->
  forall mx alpha beta,
    minimax false fuel mx alpha beta b = Ok (plain_minimax fuel mx b, b).
Proof.
  induction fuel as [|fuel IH]; intros b Hlen Hbl mx alpha beta; [lia|].
  destruct (node_queries b Hlen) as (t & s & order & Ht & Hs & Ho & Hempty).
  cbn [minimax plain_minimax]. rewrite Ht, Hs, Ho. cbn [bind]. destruct t; [done|].
  destruct mx.
  - apply max_loop_plain. eapply Forall_impl; [exact Hempty|].
    intros m Hm. split; [done|]. intros a' b'.
    apply IH; [by rewrite length_insert | by apply blanks_child].
  - apply min_loop_plain. eapply Forall_impl; [exact Hempty|].
    intros m Hm. split; [done|]. intros a' b'.
    apply IH; [by rewrite length_insert | by apply blanks_child].
Qed.

(** With [USE_ALPHA_BETA = True] and a proper window, the value returned is
    the plain value inside the window, and a bound on it outside. *)
Lemma minimax_pruned_bounded (fuel : nat) :
  forall b : board, length b = 9 -> blanks b < fuel ->
  forall mx alpha beta, ext_lt alpha beta ->
  exists v mv,
    minimax true fuel mx alpha beta b = Ok ((v, mv), b) /\
    bounded_by alpha beta v (fst (plain_minimax fuel mx b)).
Proof.
  induction fuel as [|fuel IH]; intros b Hlen Hbl mx alpha beta Hab; [lia|].
  destruct (node_queries b Hlen) as (t & s & order & Ht & Hs & Ho & Hempty).
  cbn [minimax plain_minimax]. rewrite Ht, Hs, Ho. cbn [bind]. destruct t.
  { exists (Fin s), None. split; [done|]. cbn [fst]. unfold bounded_by.
    clear. repeat split; ext_lia. }
  assert (forall mx c, c <> EMPTY ->
            Forall (child_bounded (minimax true fuel) (plain_minimax fuel) b mx c) order)
    as Hchildren.
  { intros mx' c Hc. eapply Forall_impl; [exact Hempty|].
    intros m Hm. split; [done|]. intros a' b' Hab'.
    apply IH; [by rewrite length_insert | by apply blanks_child | done]. }
  destruct mx.
  - destruct (max_loop_bounded _ _ _ _ (Hchildren false AI ltac:(done))
                NegInf None alpha beta Hab I) as (v & mv & Hv & _ & Hb).
    by exists v, mv.
  - destruct (min_loop_bounded _ _ _ _ (Hchildren true HUMAN ltac:(done))
                PosInf None alpha beta Hab) as (v & mv & Hv & _ & Hb).
    { clear. ext_lia. }
    by exists v, mv.
Qed.

(** In the default window the pruned search returns the very result of
    plain minimax: the same value and the same move. *)
Lemma minimax_pruned_root (fuel : nat) (b : board) (mx : bool) :
  length b = 9 -> blanks b < fuel ->
  minimax true fuel mx NegInf PosInf b = Ok (plain_minimax fuel mx b, b).
Proof.
  destruct fuel as [|fuel]; intros Hlen Hbl; [lia|].
  destruct (node_queries b Hlen) as (t & s & order & Ht & Hs & Ho & Hempty).
  cbn [minimax plain_minimax]. rewrite Ht, Hs, Ho. cbn [bind]. destruct t; [done|].
  assert (forall mx c, c <> EMPTY ->
            Forall (child_bounded (minimax true fuel) (plain_minimax fuel) b mx c) order)
    as Hchildren.
  { intros mx' c Hc. eapply Forall_impl; [exact Hempty|].
    intros m Hm. split; [done|]. intros a' b' Hab'.
    apply minimax_pruned_bounded;
      [by rewrite length_insert | by apply blanks_child | done]. }
  destruct mx.
  - by apply max_loop_root; [apply Hchildren|].
  - by apply min_loop_root; [apply Hchildren|].
Qed.

Lemma blanks_le_length (b : board) : blanks b <= length b.
Proof. apply List.filter_length_le. Qed.

(** ** Restoration of the board, on boards of any length *)

Lemma empty_among_empty (idxs : list nat) (b : board) (r : list nat) :
  empty_among idxs b = Ok r -> Forall (fun m => b !! m = Some EMPTY) r.
Proof.
  revert r. induction idxs as [|i t IH]; intros r; cbn [empty_among].
  - intros [= <-]. constructor.
  - unfold getitem. destruct (b !! i) as [c|] eqn:Hi; [|done]. cbn [bind].
    destruct (empty_among t b) as [r'| |]; [|done|done]. cbn [bind].
    intros [= <-]. specialize (IH r' eq_refl).
    destruct (cell_eqb c EMPTY) eqn:Hc; [|done].
    apply cell_eqb_eq in Hc as ->. by constructor.
Qed.

Lemma move_order_empty (b : board) (order : list nat) :
  move_order b = Ok order -> Forall (fun m => b !! m = Some EMPTY) order.
Proof.
  unfold move_order, getitem. destruct (b !! 4) as [c|] eqn:H4; [|done].
  cbn [bind].
  destruct (empty_among [0; 2; 6; 8] b) as [cs| |] eqn:Hcs; [|done|done].
  destruct (empty_among [1; 3; 5; 7] b) as [es| |] eqn:Hes; [|done|done].
  cbn [bind]. intros [= <-]. rewrite !Forall_app.
  split; [|split; by eapply empty_among_empty].
  destruct (cell_eqb c EMPTY) eqn:Hc; [|constructor].
  apply cell_eqb_eq in Hc as ->. by repeat constructor.
Qed.

Section Frame.

Variable ab : bool.
Variable rec : bool -> ext -> ext -> board -> result (search_result * board).

Hypothesis rec_restores :
  forall mx alpha beta (b : board) r b',
    rec mx alpha beta b = Ok (r, b') -> b' = b.

Lemma max_loop_restores order (b : board) :
  Forall (fun m => b !! m = Some EMPTY) order ->
  forall bs bm alpha beta r b',
    max_loop ab rec order bs bm alpha beta b = Ok (r, b') -> b' = b.
Proof.
  induction 1 as [|m rest Hm _ IH]; intros bs bm alpha beta r b';
    cbn [max_loop]; [by intros [= _ <-]|].
  rewrite (setitem_lookup _ _ _ _ Hm). cbn [bind].
  destruct (rec false alpha beta (<[m := AI]> b)) as [[[s mv] b2]| |] eqn:Hrec;
    [|done|done].
  apply rec_restores in Hrec as ->. cbn [bind].
  rewrite (setitem_undo _ _ _ Hm). cbn [bind].
  destruct (ext_ltb bs s), ab;
    try destruct (ext_leb _ _); try (by intros [= _ <-]); apply IH.
Qed.

Lemma min_loop_restores order (b : board) :
  Forall (fun m => b !! m = Some EMPTY) order ->
  forall bs bm alpha beta r b',
    min_loop ab rec order bs bm alpha beta b = Ok (r, b') -> b' = b.
Proof.
  induction 1 as [|m rest Hm _ IH]; intros bs bm alpha beta r b';
    cbn [min_loop]; [by intros [= _ <-]|].
  rewrite (setitem_lookup _ _ _ _ Hm). cbn [bind].
  destruct (rec true alpha beta (<[m := HUMAN]> b)) as [[[s mv] b2]| |] eqn:Hrec;
    [|done|done].
  apply rec_restores in Hrec as ->. cbn [bind].
  rewrite (setitem_undo _ _ _ Hm). cbn [bind].
  destruct (ext_ltb s bs), ab;
    try destruct (ext_leb _ _); try (by intros [= _ <-]); apply IH.
Qed.

End Frame.

Lemma minimax_restores (ab : bool) (fuel : nat) :
  forall mx alpha beta (b : board) r b',
    minimax ab fuel mx alpha beta b = Ok (r, b') -> b' = b.
Proof.
  induction fuel as [|fuel IH]; intros mx alpha beta b r b'; [done|].
  cbn [minimax]. destruct (is_terminal b) as [[|]| |]; [| |done|done]; cbn [bind].
  { destruct (score b); [|done|done]. by intros [= _ <-]. }
  destruct (move_order b) as [order| |] eqn:Ho; [|done|done]. cbn [bind].
  apply move_order_empty in Ho. destruct mx.
  - by apply max_loop_restores.
  - by apply min_loop_restores.
Qed.

(** ** More fuel does not change an answer *)

Section FuelStep.

Variable ab : bool.
Variables rec rec' : bool -> ext -> ext -> board -> result (search_result * board).

Hypothesis rec_mono :
  forall mx alpha beta (b : board) r,
    rec mx alpha beta b = Ok r -> rec' mx alpha beta b = Ok r.

Lemma max_loop_mono order :
  forall bs bm alpha beta (b : board) r,
    max_loop ab rec order bs bm alpha beta b = Ok r ->
    max_loop ab rec' order bs bm alpha beta b = Ok r.
Proof.
  induction order as [|m rest IH]; intros bs bm alpha beta b r; [done|].
  cbn [max_loop]. destruct (setitem b m AI) as [b1| |]; [|done|done].
  cbn [bind].
  destruct (rec false alpha beta b1) as [[[s mv] b2]| |] eqn:Hrec; [|done|done].
  rewrite (rec_mono _ _ _ _ _ Hrec). cbn [bind].
  destruct (setitem b2 m EMPTY) as [b3| |]; [|done|done]. cbn [bind].
  destruct (ext_ltb bs s), ab; try destruct (ext_leb _ _); try done; apply IH.
Qed.

Lemma min_loop_mono order :
  forall bs bm alpha beta (b : board) r,
    min_loop ab rec order bs bm alpha beta b = Ok r ->
    min_loop ab rec' order bs bm alpha beta b = Ok r.
Proof.
  induction order as [|m rest IH]; intros bs bm alpha beta b r; [done|].
  cbn [min_loop]. destruct (setitem b m HUMAN) as [b1| |]; [|done|done].
  cbn [bind].
  destruct (rec true alpha beta b1) as [[[s mv] b2]| |] eqn:Hrec; [|done|done].
  rewrite (rec_mono _ _ _ _ _ Hrec). cbn [bind].
  destruct (setitem b2 m EMPTY) as [b3| |]; [|done|done]. cbn [bind].
  destruct (ext_ltb s bs), ab; try destruct (ext_leb _ _); try done; apply IH.
Qed.

End FuelStep.

Lemma minimax_fuel_S (ab : bool) (fuel : nat) :
  forall mx alpha beta (b : board) r,
    minimax ab fuel mx alpha beta b = Ok r ->
    minimax ab (S fuel) mx alpha beta b = Ok r.
Proof.
  induction fuel as [|fuel IH]; intros mx alpha beta b r; [done|].
  change (minimax ab (S (S fuel)) mx alpha beta b) with
    (let! t := is_terminal b in
     if t then let! s := score b in Ok ((Fin s, None), b)
     else let! order := move_order b in
          if mx then max_loop ab (minimax ab (S fuel)) order NegInf None alpha beta b
          else min_loop ab (minimax ab (S fuel)) order PosInf None alpha beta b).
  cbn [minimax]. destruct (is_terminal b) as [[|]| |]; try done. cbn [bind].
  destruct (move_order b) as [order| |]; try done. cbn [bind].
  destruct mx; [by apply max_loop_mono | by apply min_loop_mono].
Qed.

Lemma minimax_fuel_le (ab : bool) (fuel fuel' : nat) mx alpha beta (b : board) r :
  fuel <= fuel' ->
  minimax ab fuel mx alpha beta b = Ok r ->
  minimax ab fuel' mx alpha beta b = Ok r.
Proof. induction 1 as [|k _ IH]; [done|]. intros Hr. by apply minimax_fuel_S, IH. Qed.

Lemma best_ai_move_restores (ab : bool) (fuel : nat) (b b' : board) m :
  best_ai_move ab fuel b = Ok (m, b') -> b' = b.
Proof.
  unfold best_ai_move.
  destruct (minimax ab fuel true NegInf PosInf b) as [[[v mv] b2]| |] eqn:Hm;
    [|done|done].
  cbn [bind]. intros [= _ <-]. by eapply minimax_restores.
Qed.

(** ** The search: restoration, pruning, fixtures *)

(** C3: whatever the board, the flag, the window and the pruning switch,
    when [minimax] or [best_ai_move] returns, the board is the board it was
    given, early exits of the loops included; and on a 9-cell board, with
    more fuel than empty cells, both do return. *)
Theorem search_restores_board (ab : bool) (fuel : nat) (mx : bool)
    (alpha beta : ext) (b : board) :
  (forall r b', minimax ab fuel mx alpha beta b = Ok (r, b') -> b' = b) /\
  (forall m b', best_ai_move ab fuel b = Ok (m, b') -> b' = b) /\
  (length b = 9 -> blanks b < fuel ->
   (exists r, minimax ab fuel mx alpha beta b = Ok (r, b)) /\
   (exists m, best_ai_move ab fuel b = Ok (m, b))).
Proof.
  split; [apply minimax_restores|]. split.
  - intros m b'. apply best_ai_move_restores.
  - intros Hlen Hbl. split; [by apply minimax_returns|].
    destruct (minimax_returns ab fuel b Hlen Hbl true NegInf PosInf) as [[v mv] Hr].
    exists mv. unfold best_ai_move. by rewrite Hr.
Qed.

Lemma search_restores_board_witness :
  length sample_board = 9 /\ blanks sample_board < 4 /\
  (exists r, minimax true 4 false (Fin 0) (Fin 0) sample_board = Ok (r, sample_board)) /\
  (exists m, best_ai_move true 4 sample_board = Ok (m, sample_board)).
Proof.
  split; [reflexivity|]. split; [vm_compute; lia|].
  apply (search_restores_board true 4 false (Fin 0) (Fin 0) sample_board);
    [reflexivity | vm_compute; lia].
Defined.

Lemma legal_play_length (c : cell) (b : board) : legal_play c b -> length b = 9.
Proof. induction 1; [done | by rewrite length_insert]. Qed.

(** C4: on every board reachable through legal play, for either flag, the
    search with alpha-beta pruning and the search without it return the same
    value; in the default window they return the same move as well. *)
Theorem pruning_preserves_value (c : cell) (b : board) (mx : bool) (fuel : nat) :
  legal_play c b -> blanks b < fuel ->
  exists v m,
    minimax true fuel mx NegInf PosInf b = Ok ((v, m), b) /\
    minimax false fuel mx NegInf PosInf b = Ok ((v, m), b).
Proof.
  intros Hlen%legal_play_length Hbl.
  destruct (plain_minimax fuel mx b) as [v m] eqn:Hp. exists v, m.
  by rewrite minimax_pruned_root, minimax_unpruned, Hp.
Qed.

Lemma pruning_preserves_value_witness :
  legal_play O (<[4 := X]> empty_board) /\
  exists v m,
    minimax true 10 true NegInf PosInf (<[4 := X]> empty_board)
      = Ok ((v, m), <[4 := X]> empty_board) /\
    minimax false 10 true NegInf PosInf (<[4 := X]> empty_board)
      = Ok ((v, m), <[4 := X]> empty_board).
Proof.
  assert (legal_play O (<[4 := X]> empty_board)) as Hlegal.
  { apply (legal_move X empty_board 4); [by apply legal_start | reflexivity | reflexivity]. }
  split; [exact Hlegal|].
  apply (pruning_preserves_value O _ true 10 Hlegal). vm_compute. lia.
Defined.

(** C2: on the empty board, maximizing, in the window from [-math.inf] to
    [math.inf], [minimax] returns the value 0 (and the centre as the move),
    with pruning or without. *)
Theorem empty_board_value_zero (ab : bool) (fuel : nat) :
  10 <= fuel ->
  minimax ab fuel true NegInf PosInf empty_board = Ok ((Fin 0, Some 4), empty_board).
Proof.
  intros Hfuel.
  assert (minimax true 10 true NegInf PosInf empty_board
          = Ok ((Fin 0, Some 4), empty_board)) as H10 by (vm_compute; reflexivity).
  apply (minimax_fuel_le ab 10 fuel); [done|].
  destruct ab; [done|].
  rewrite minimax_unpruned by (vm_compute; lia).
  rewrite minimax_pruned_root in H10 by (vm_compute; lia).
  done.
Qed.

Lemma empty_board_value_zero_witness :
  minimax USE_ALPHA_BETA 10 true NegInf PosInf empty_board
  = Ok ((Fin 0, Some 4), empty_board).
Proof. apply (empty_board_value_zero USE_ALPHA_BETA 10). lia. Defined.

(** C5: on the board [X,O,X, X,O,_, _,_,O] the engine, moving as the
    maximizer, plays index 7; that is the move of plain minimax with the
    fixed move order and first-seen tie-break. *)
Theorem sample_board_best_move (ab : bool) (fuel : nat) :
  4 <= fuel ->
  best_ai_move ab fuel sample_board = Ok (Some 7, sample_board) /\
  snd (plain_minimax fuel true sample_board) = Some 7.
Proof.
  intros Hfuel.
  assert (minimax true 4 true NegInf PosInf sample_board
          = Ok ((Fin 1, Some 7), sample_board)) as H4 by (vm_compute; reflexivity).
  assert (minimax true fuel true NegInf PosInf sample_board
          = Ok ((Fin 1, Some 7), sample_board)) as Hf
    by (by apply (minimax_fuel_le true 4 fuel)).
  assert (blanks sample_board < fuel) as Hbl by (vm_compute; lia).
  pose proof Hf as Hp. rewrite minimax_pruned_root in Hp by done.
  injection Hp as Hp. split; [|by rewrite Hp].
  unfold best_ai_move. destruct ab; [by rewrite Hf|].
  by rewrite minimax_unpruned, Hp.
Qed.

Lemma sample_board_best_move_witness :
  best_ai_move USE_ALPHA_BETA 10 sample_board = Ok (Some 7, sample_board) /\
  snd (plain_minimax 10 true sample_board) = Some 7.
Proof. apply (sample_board_best_move USE_ALPHA_BETA 10). lia. Defined.

(** ** Terminal boards and [score] *)

(** C8, as stated, fails: on a terminal board the search returns a value
    and no move instead of raising, and [score] on a non-terminal board
    returns 0. *)
Lemma terminal_search_returns_normally :
  is_terminal won_board = Ok true /\
  minimax USE_ALPHA_BETA 10 true NegInf PosInf won_board
    = Ok ((Fin (-1), None), won_board) /\
  best_ai_move USE_ALPHA_BETA 10 won_board = Ok (None, won_board) /\
  is_terminal empty_board = Ok false /\
  score empty_board = Ok 0%Z.
Proof. repeat split; reflexivity. Qed.

(** C8, amended: on a terminal board [minimax] returns [(score(board), None)]
    and [best_ai_move] returns [None], the board unchanged and nothing
    raised; on a non-terminal board [score] returns 0. *)
Theorem terminal_search_returns_score (ab : bool) (fuel : nat) (mx : bool)
    (alpha beta : ext) (b : board) :
  (is_terminal b = Ok true ->
   exists s, score b = Ok s /\
     minimax ab (S fuel) mx alpha beta b = Ok ((Fin s, None), b) /\
     best_ai_move ab (S fuel) b = Ok (None, b)) /\
  (is_terminal b = Ok false -> score b = Ok 0%Z).
Proof.
  unfold best_ai_move. cbn [minimax]. unfold is_terminal, score.
  destruct (winner b) as [w| |]; cbn [bind]; [|done|done].
  split.
  - intros [= ->]. eexists. split; [done|]. done.
  - intros [= [Hw _]%orb_false_iff]. by destruct w.
Qed.

Lemma terminal_search_returns_score_witness :
  is_terminal won_board = Ok true /\
  exists s, score won_board = Ok s /\
    minimax true 1 true NegInf PosInf won_board = Ok ((Fin s, None), won_board) /\
    best_ai_move true 1 won_board = Ok (None, won_board).
Proof.
  split; [reflexivity|].
  apply (terminal_search_returns_score true 0 true NegInf PosInf won_board).
  reflexivity.
Defined.

(** ** The human turn *)

Lemma parse_move_range (s : str) (m : nat) :
  parse_move s = Ok (Some m) -> m < 9.
Proof.
  unfold parse_move.
  match goal with |- context [bind ?e _] => destruct e as [[[r c]|]| |] end;
    cbn [bind]; try done.
  destruct (_ && _) eqn:Hrc; [|done]. intros [= <-].
  repeat (apply andb_prop in Hrc as [Hrc ?]).
  repeat match goal with
         | H : (_ <=? _) = true |- _ => apply Nat.leb_le in H
         end.
  lia.
Qed.

Lemma human_turn_refused (b : board) (line : str) (rest : list str) :
  refused b line -> human_turn (line :: rest) b = human_turn rest b.
Proof.
  intros [Hp | (m & c & Hp & Hm & Hc)]; cbn [human_turn]; rewrite Hp; cbn [bind].
  - done.
  - unfold getitem. rewrite Hm. cbn [bind].
    destruct (cell_eqb c EMPTY) eqn:E; [by apply cell_eqb_eq in E|done].
Qed.

(** When [human_turn] returns, it has placed one [HUMAN] mark on a cell
    that was empty and is in range. *)
Lemma human_turn_places (inputs : list str) (b b' : board) (rest : list str) :
  human_turn inputs b = Ok (b', rest) ->
  exists m, m < 9 /\ b !! m = Some EMPTY /\ b' = <[m := HUMAN]> b.
Proof.
  induction inputs as [|line inputs IH]; cbn [human_turn]; [done|].
  destruct (parse_move (strip line)) as [[m|]| |] eqn:Hp; cbn [bind]; try done.
  unfold getitem. destruct (b !! m) as [c|] eqn:Hm; cbn [bind]; [|done].
  destruct (cell_eqb c EMPTY) eqn:E; cbn [negb]; [|done].
  apply cell_eqb_eq in E as ->. rewrite (setitem_lookup _ _ _ _ Hm). cbn [bind].
  intros [= <- _]. exists m. split; [by eapply parse_move_range | done].
Qed.

(** Every cell can be named by a line: no legal move is out of the
    human's reach. *)
Lemma every_cell_can_be_typed (m : nat) :
  m < 9 -> exists l, parse_move (strip l) = Ok (Some m).
Proof.
  intros Hm.
  do 9 (destruct m as [|m];
        [first [ exists (line "1 1"); vm_compute; reflexivity
               | exists (line "1 2"); vm_compute; reflexivity
               | exists (line "1 3"); vm_compute; reflexivity
               | exists (line "2 1"); vm_compute; reflexivity
               | exists (line "2 2"); vm_compute; reflexivity
               | exists (line "2 3"); vm_compute; reflexivity
               | exists (line "3 1"); vm_compute; reflexivity
               | exists (line "3 2"); vm_compute; reflexivity
               | exists (line "3 3"); vm_compute; reflexivity ]|]).
  lia.
Qed.

Lemma int_fails (p : str) :
  match int p with
  | Ok _ => True
  | Raise e => e = ValueError
  | OutOfFuel => False
  end.
Proof. unfold int. by destruct (_ && _). Qed.

(** [parse_move] raises nothing but the [ValueError] of [int]. *)
Lemma parse_move_fails (s : str) :
  match parse_move s with
  | Ok _ => True
  | Raise e => e = ValueError
  | OutOfFuel => False
  end.
Proof.
  unfold parse_move. set (s' := replace _ _ _). clearbody s'.
  destruct (List.filter isdigit (split s')) as [|p0 [|p1 [|p2 parts]]];
    try destruct s' as [|c0 [|c1 [|c2 t]]];
    repeat match goal with
           | |- context [int ?p] =>
               let H := fresh in
               pose proof (int_fails p) as H; destruct (int p); cbn [bind]
           | |- context [if ?c then _ else _] => destruct c
           end;
    cbn [bind]; try done; by destruct (_ && _).
Qed.

(** On a 9-cell board [human_turn] raises nothing but the end of the input
    and the [ValueError] of [int]. *)
Lemma human_turn_fails (inputs : list str) (b : board) :
  length b = 9 ->
  match human_turn inputs b with
  | Ok _ => True
  | Raise e => e = EOFError \/ e = ValueError
  | OutOfFuel => False
  end.
Proof.
  intros Hlen. induction inputs as [|line inputs IH]; cbn [human_turn]; [by left|].
  pose proof (parse_move_fails (strip line)) as Hf.
  destruct (parse_move (strip line)) as [[m|]|e|] eqn:Hp; cbn [bind];
    [| done | by right | done].
  destruct (getitem_lt b m) as (c & Hm & ->);
    [apply parse_move_range in Hp; lia|].
  cbn [bind]. destruct (cell_eqb c EMPTY); cbn [negb]; [|done].
  by rewrite (setitem_lookup _ _ _ _ Hm).
Qed.

(** ** The engine never loses *)

Lemma setitem_length (b b' : board) (m : nat) (c : cell) :
  setitem b m c = Ok b' -> length b' = length b.
Proof.
  unfold setitem. destruct (m <? length b); [|done].
  intros [= <-]. apply length_insert.
Qed.

Lemma after_turn_sound (safe : board -> bool)
    (continue : list str -> board -> bool -> result outcome)
    (b : board) (inputs : list str) (t : bool) :
  after_turn safe b = true ->
  (safe b = true -> acceptable (continue inputs b t)) ->
  acceptable
    (let! w := winner b in
     if is_mark w HUMAN then Ok HumanWin
     else if is_mark w AI then Ok AIWin
     else if is_nil (available_moves b) then Ok Draw
     else continue inputs b t).
Proof.
  unfold after_turn, acceptable.
  destruct (winner b) as [[[ | | ]|]| |]; cbn [bind]; try done; [by left|].
  cbn [is_mark]. destruct (is_nil (available_moves b)); [by right; left|].
  cbn [orb]. auto.
Qed.

Lemma never_lost_sound (turns : nat) :
  forall (b : board) (t : bool), length b = 9 -> never_lost turns b t = true ->
  forall inputs, acceptable (game_turns turns inputs b t).
Proof.
  induction turns as [|n IH]; intros b t Hlen Hsafe inputs; [done|].
  cbn [game_turns never_lost] in *. unfold game_step. destruct t.
  - pose proof (human_turn_fails inputs b Hlen) as Hf.
    destruct (human_turn inputs b) as [[b' rest]|e|] eqn:Hh; cbn [bind].
    + apply human_turn_places in Hh as (m & _ & Hm & ->).
      rewrite forallb_forall in Hsafe. specialize (Hsafe m).
      apply after_turn_sound with (safe := fun b' => never_lost n b' false).
      * apply Hsafe. by apply list_elem_of_In, available_moves_elem.
      * intros Hn. apply IH; [by rewrite length_insert | done].
    + right; right. by destruct Hf as [-> | ->]; [left | right].
    + done.
  - destruct (best_ai_move USE_ALPHA_BETA search_fuel b) as [[[m|] b']| |] eqn:Hai;
      try done.
    apply best_ai_move_restores in Hai as ->. cbn [bind].
    destruct (setitem b m AI) as [b1| |] eqn:Hset; try done. cbn [bind].
    apply after_turn_sound with (safe := fun b' => never_lost n b' true); [done|].
    intros Hn. apply IH; [|done]. by rewrite (setitem_length _ _ _ _ Hset).
Qed.

(** More iterations do not change the end of a game. *)
Lemma game_turns_S (turns : nat) :
  forall inputs (b : board) t,
    game_turns turns inputs b t <> OutOfFuel ->
    game_turns (S turns) inputs b t = game_turns turns inputs b t.
Proof.
  induction turns as [|n IH]; intros inputs b t; [done|].
  change (game_turns (S (S n)) inputs b t)
    with (game_step (game_turns (S n)) inputs b t).
  change (game_turns (S n) inputs b t)
    with (game_step (game_turns n) inputs b t).
  unfold game_step.
  destruct (if t then _ else _) as [[b' inputs']| |]; cbn [bind]; try done.
  destruct (winner b') as [w| |]; cbn [bind]; try done.
  destruct (is_mark w HUMAN), (is_mark w AI),
    (is_nil (available_moves b')); try done; apply IH.
Qed.

Lemma game_turns_le (n turns : nat) inputs (b : board) t :
  n <= turns ->
  game_turns n inputs b t <> OutOfFuel ->
  game_turns turns inputs b t = game_turns n inputs b t.
Proof.
  induction 1 as [|k _ IH]; [done|]. intros Hn.
  rewrite game_turns_S; [by apply IH|]. by rewrite IH.
Qed.

Lemma acceptable_not_lost (r : result outcome) :
  acceptable r -> r <> Ok HumanWin /\ r <> OutOfFuel.
Proof. intros [-> | [-> | [-> | ->]]]; by split. Qed.

(** C1: whatever the human types and whoever starts, when the engine
    answers with [best_ai_move] the game is never won by the human; played
    to the end (nine turns are enough) it ends in a win of the engine or a
    draw, unless the human's input stops or is refused by [int]. *)
Theorem engine_never_loses (human_first : bool) (turns : nat) (inputs : list str) :
  game_loop human_first turns inputs <> Ok HumanWin /\
  (9 <= turns -> acceptable (game_loop human_first turns inputs)).
Proof.
  unfold game_loop.
  assert (acceptable (game_turns 9 inputs empty_board human_first)) as H9.
  { apply never_lost_sound; [done|]. destruct human_first; vm_compute; reflexivity. }
  assert (9 <= turns -> acceptable (game_turns turns inputs empty_board human_first))
    as Hge.
  { intros Hle. rewrite (game_turns_le 9 turns) by
      (done || by apply acceptable_not_lost). done. }
  split; [|done].
  destruct (Nat.le_gt_cases 9 turns) as [Hle | Hlt].
  - by apply acceptable_not_lost, Hge.
  - intros Hwin. apply acceptable_not_lost in H9 as [H9 _]. apply H9.
    rewrite (game_turns_le turns 9) by (lia || by rewrite Hwin). done.
Qed.

Lemma engine_never_loses_witness :
  9 <= 9 /\
  acceptable (game_loop HUMAN_FIRST 9
                (map line ["1 1"; "3 3"; "1 2"; "2 1"; "2 3"; "3 2"; "1 3"; "3 1"]%string)).
Proof.
  split; [lia|].
  apply (engine_never_loses HUMAN_FIRST 9
           (map line ["1 1"; "3 3"; "1 2"; "2 1"; "2 3"; "3 2"; "1 3"; "3 1"]%string)).
  lia.
Defined.

(** A game played to the end: the human takes a corner, the engine answers
    in the centre; two lines are refused on the way. *)
Example game_played_to_the_end :
  game_loop HUMAN_FIRST 9
    (map line ["1 1"; "1 1"; "9 9"; "3 3"; "1 2"; "2 1"; "2 3"; "3 2"; "1 3"; "3 1"]%string)
  = Ok AIWin.
Proof. vm_compute. reflexivity. Qed.

(** ** Refused moves *)

(** C9, as stated, fails: a move out of range or on an occupied cell raises
    no error.  [human_turn] skips the line and goes on to the next one. *)
Lemma refused_move_raises_nothing :
  human_turn [line "4 1"; line "1 1"] empty_board
    = Ok (<[0 := HUMAN]> empty_board, []) /\
  human_turn [line "1 1"; line "2 2"] (<[0 := HUMAN]> empty_board)
    = Ok (<[4 := HUMAN]> (<[0 := HUMAN]> empty_board), []) /\
  forall e, human_turn [line "4 1"; line "1 1"] empty_board <> Raise e.
Proof. split; [|split]; [vm_compute; reflexivity .. | intros e; vm_compute; discriminate]. Qed.

(** C9, amended: a line that parses to no index (row or column outside
    1..3) or to an occupied cell is refused without any error: the board is
    unchanged and the next line is read.  [parse_move] yields no index
    outside 0..8, and when [human_turn] returns it has placed one mark, on a
    cell that was empty. *)
Theorem human_turn_refuses_and_reprompts (b : board) (l : str) (rest : list str) :
  (refused b l -> human_turn (l :: rest) b = human_turn rest b) /\
  (forall m, parse_move (strip l) = Ok (Some m) -> m < 9) /\
  (forall b' rest', human_turn (l :: rest) b = Ok (b', rest') ->
     exists m, m < 9 /\ b !! m = Some EMPTY /\ b' = <[m := HUMAN]> b).
Proof.
  split; [apply human_turn_refused|].
  split; [intros m; apply parse_move_range|].
  intros b' rest'. apply human_turn_places.
Qed.

Lemma human_turn_refuses_and_reprompts_witness :
  refused sample_board (line "4 1") /\
  refused sample_board (line "1 1") /\
  human_turn [line "4 1"; line "1 1"; line "3 1"] sample_board
    = Ok (<[6 := HUMAN]> sample_board, []).
Proof.
  assert (refused sample_board (line "4 1")) as H1 by (left; vm_compute; reflexivity).
  assert (refused sample_board (line "1 1")) as H2.
  { right. exists 0, X. split; [vm_compute; reflexivity|].
    split; [reflexivity | discriminate]. }
  split; [done|]. split; [done|].
  rewrite (proj1 (human_turn_refuses_and_reprompts sample_board (line "4 1") _) H1).
  rewrite (proj1 (human_turn_refuses_and_reprompts sample_board (line "1 1") _) H2).
  vm_compute. reflexivity.
Defined.

(** * Part IV: further properties of the program *)

(** ** [available_moves] *)

Lemma available_from_ge (l : list cell) (i : nat) :
  Forall (fun j => i <= j)
    (map fst (List.filter (fun iv => cell_eqb (snd iv) EMPTY) (enumerate_from i l))).
Proof.
  apply Forall_forall. intros j Hj.
  apply available_from_elem in Hj as (k & -> & _). lia.
Qed.

Lemma available_from_sorted (l : list cell) (i : nat) :
  StronglySorted lt
    (map fst (List.filter (fun iv => cell_eqb (snd iv) EMPTY) (enumerate_from i l))).
Proof.
  revert i. induction l as [|c l IH]; intros i; simpl; [constructor|].
  destruct (cell_eqb c EMPTY); simpl; [|apply IH].
  constructor; [apply IH|].
  eapply Forall_impl; [apply (available_from_ge l (S i))|].
  intros j Hj. simpl in Hj. lia.
Qed.

(** X1: [available_moves] lists the indices of the empty cells, and only
    those, in strictly ascending order, on a board of any length. *)
Theorem available_moves_ascending (b : board) :
  StronglySorted lt (available_moves b) /\
  forall i, i ∈ available_moves b <-> b !! i = Some EMPTY.
Proof.
  split; [apply available_from_sorted | apply available_moves_elem].
Qed.

Lemma filter_keeps_all {A : Type} (f : A -> bool) (l : list A) :
  Forall (fun x => f x = true) l -> List.filter f l = l.
Proof. induction 1 as [|x l Hx _ IH]; simpl; [done|]. by rewrite Hx, IH. Qed.

Lemma available_from_insert (l : list cell) (i m : nat) (c : cell) :
  c <> EMPTY ->
  map fst (List.filter (fun iv => cell_eqb (snd iv) EMPTY)
             (enumerate_from i (<[m := c]> l))) =
  List.filter (fun j => negb (j =? i + m))
    (map fst (List.filter (fun iv => cell_eqb (snd iv) EMPTY) (enumerate_from i l))).
Proof.
  intros Hc. revert i m. induction l as [|d l IH]; intros i [|m]; simpl; try done.
  - assert (cell_eqb c EMPTY = false) as ->
      by (destruct (cell_eqb c EMPTY) eqn:E; [by apply cell_eqb_eq in E|done]).
    assert (List.filter (fun j => negb (j =? i + 0))
              (map fst (List.filter (fun iv => cell_eqb (snd iv) EMPTY)
                          (enumerate_from (S i) l)))
            = map fst (List.filter (fun iv => cell_eqb (snd iv) EMPTY)
                         (enumerate_from (S i) l))) as Hkeep.
    { apply filter_keeps_all.
      eapply Forall_impl; [apply (available_from_ge l (S i))|].
      intros j Hj. simpl in Hj. apply negb_true_iff, Nat.eqb_neq. lia. }
    destruct (cell_eqb d EMPTY); simpl; [|by rewrite Hkeep].
    assert ((i =? i + 0) = true) as -> by (apply Nat.eqb_eq; lia).
    simpl. by rewrite Hkeep.
  - pose proof (IH (S i) m) as IHm.
    replace (S i + m) with (i + S m) in IHm by lia.
    destruct (cell_eqb d EMPTY); simpl; [|done].
    assert ((i =? i + S m) = false) as -> by (apply Nat.eqb_neq; lia).
    simpl. by rewrite IHm.
Qed.

(** X2: after [board[m] = mark] with a mark that is not [EMPTY], the
    available moves are the former ones without [m], in the same order. *)
Theorem available_moves_after_move (b b' : board) (m : nat) (c : cell) :
  c <> EMPTY -> setitem b m c = Ok b' ->
  available_moves b' = List.filter (fun j => negb (j =? m)) (available_moves b).
Proof.
  intros Hc. unfold setitem. destruct (m <? length b); [|done].
  intros [= <-]. unfold available_moves, enumerate.
  by rewrite (available_from_insert b 0 m c Hc).
Qed.

Lemma available_moves_after_move_witness :
  AI <> EMPTY /\ setitem sample_board 6 AI = Ok (<[6 := AI]> sample_board) /\
  available_moves (<[6 := AI]> sample_board) = [5; 7].
Proof.
  split; [discriminate|]. split; [reflexivity|].
  rewrite (available_moves_after_move sample_board (<[6 := AI]> sample_board) 6 AI);
    [reflexivity | discriminate | reflexivity].
Defined.

(** ** What plain minimax returns at a node *)

Lemma ext_lt_trans (a b c : ext) : ext_lt a b -> ext_lt b c -> ext_lt a c.
Proof. intros. ext_lia. Qed.

Lemma ext_le_lt_trans (a b c : ext) : ext_le a b -> ext_lt b c -> ext_lt a c.
Proof. intros. ext_lia. Qed.

Lemma ext_lt_le (a b : ext) : ext_lt a b -> ext_le a b.
Proof. intros. ext_lia. Qed.

Lemma ext_le_refl (a : ext) : ext_le a a.
Proof. ext_lia. Qed.

Section PlainLoops.

Variable rec : bool -> board -> search_result.
Variable b : board.

(** The maximizing loop either keeps the running best, which then no
    candidate exceeds, or returns the first candidate of greatest value. *)
Lemma plain_max_loop_first order bs bm :
  (plain_max_loop rec order bs bm b = (bs, bm) /\
   Forall (fun m => ext_le (fst (rec false (<[m := AI]> b))) bs) order) \/
  exists pre m post,
    order = pre ++ m :: post /\
    plain_max_loop rec order bs bm b = (fst (rec false (<[m := AI]> b)), Some m) /\
    ext_lt bs (fst (rec false (<[m := AI]> b))) /\
    Forall (fun m' => ext_lt (fst (rec false (<[m' := AI]> b)))
                             (fst (rec false (<[m := AI]> b)))) pre /\
    Forall (fun m' => ext_le (fst (rec false (<[m' := AI]> b)))
                             (fst (rec false (<[m := AI]> b)))) post.
Proof.
  revert bs bm. induction order as [|m0 rest IH]; intros bs bm.
  { left. by split. }
  cbn [plain_max_loop].
  destruct (ext_ltb bs (fst (rec false (<[m0 := AI]> b)))) eqn:E.
  - apply ext_ltb_true in E.
    destruct (IH (fst (rec false (<[m0 := AI]> b))) (Some m0))
      as [[Hr Hall] | (pre & m & post & -> & Hr & Hlt & Hpre & Hpost)]; right.
    + exists [], m0, rest. repeat split; try done.
    + exists (m0 :: pre), m, post. repeat split; try done.
      * by eapply ext_lt_trans.
      * by constructor.
  - apply ext_ltb_false in E.
    destruct (IH bs bm)
      as [[Hr Hall] | (pre & m & post & -> & Hr & Hlt & Hpre & Hpost)].
    + left. split; [done | by constructor].
    + right. exists (m0 :: pre), m, post. repeat split; try done.
      constructor; [by eapply ext_le_lt_trans | done].
Qed.

(** The minimizing loop, dually. *)
Lemma plain_min_loop_first order bs bm :
  (plain_min_loop rec order bs bm b = (bs, bm) /\
   Forall (fun m => ext_le bs (fst (rec true (<[m := HUMAN]> b)))) order) \/
  exists pre m post,
    order = pre ++ m :: post /\
    plain_min_loop rec order bs bm b = (fst (rec true (<[m := HUMAN]> b)), Some m) /\
    ext_lt (fst (rec true (<[m := HUMAN]> b))) bs /\
    Forall (fun m' => ext_lt (fst (rec true (<[m := HUMAN]> b)))
                             (fst (rec true (<[m' := HUMAN]> b)))) pre /\
    Forall (fun m' => ext_le (fst (rec true (<[m := HUMAN]> b)))
                             (fst (rec true (<[m' := HUMAN]> b)))) post.
Proof.
  revert bs bm. induction order as [|m0 rest IH]; intros bs bm.
  { left. by split. }
  cbn [plain_min_loop].
  destruct (ext_ltb (fst (rec true (<[m0 := HUMAN]> b))) bs) eqn:E.
  - apply ext_ltb_true in E.
    destruct (IH (fst (rec true (<[m0 := HUMAN]> b))) (Some m0))
      as [[Hr Hall] | (pre & m & post & -> & Hr & Hlt & Hpre & Hpost)]; right.
    + exists [], m0, rest. repeat split; try done.
    + exists (m0 :: pre), m, post. repeat split; try done.
      * by eapply ext_lt_trans.
      * by constructor.
  - apply ext_ltb_false in E.
    destruct (IH bs bm)
      as [[Hr Hall] | (pre & m & post & -> & Hr & Hlt & Hpre & Hpost)].
    + left. split; [done | by constructor].
    + right. exists (m0 :: pre), m, post. repeat split; try done.
      constructor; [|done].
      clear -E Hlt. revert E Hlt.
      generalize (fst (rec true (<[m := HUMAN]> b))).
      generalize (fst (rec true (<[m0 := HUMAN]> b))).
      intros. ext_lia.
Qed.

End PlainLoops.

Lemma score_values (b : board) (s : Z) : score b = Ok s -> score_like (Fin s).
Proof.
  unfold score, score_like. destruct (winner b) as [w| |]; cbn [bind]; [|done|done].
  intros [= <-]. destruct (is_mark w AI), (is_mark w HUMAN); auto.
Qed.

Lemma score_like_finite (v : ext) :
  score_like v -> ext_lt NegInf v /\ ext_lt v PosInf.
Proof. by intros [-> | [-> | ->]]. Qed.

(** A non-terminal 9-cell board has a candidate move. *)
Lemma nonterminal_has_move (b : board) (order : list nat) :
  length b = 9 -> is_terminal b = Ok false -> move_order b = Ok order ->
  order <> [].
Proof.
  intros Hlen Ht Ho. unfold is_terminal in Ht.
  destruct (winner b) as [w| |]; cbn [bind] in Ht; [|done|done].
  injection Ht as Ht. apply orb_false_iff in Ht as [_ Hnil].
  destruct (available_moves b) as [|i l] eqn:Ha; [done|].
  assert (i ∈ order) as Hi.
  { apply (move_order_elem b order i Hlen Ho), available_moves_elem.
    rewrite Ha. by left. }
  intros ->. by apply elem_of_nil in Hi.
Qed.

(** The shape of a non-terminal node of plain minimax. *)
Lemma plain_minimax_node (fuel : nat) (b : board) (mx : bool) :
  length b = 9 -> is_terminal b = Ok false ->
  exists order,
    move_order b = Ok order /\ order <> [] /\
    Forall (fun m => b !! m = Some EMPTY) order /\
    plain_minimax (S fuel) mx b =
      if mx then plain_max_loop (plain_minimax fuel) order NegInf None b
      else plain_min_loop (plain_minimax fuel) order PosInf None b.
Proof.
  intros Hlen Ht.
  destruct (node_queries b Hlen) as (t & s & order & Ht' & Hs & Ho & Hempty).
  exists order. split; [done|]. split; [by eapply nonterminal_has_move|].
  split; [done|]. cbn [plain_minimax]. by rewrite Ht, Ho.
Qed.

Lemma plain_minimax_range (fuel : nat) :
  forall (b : board) mx, length b = 9 -> blanks b < fuel ->
  score_like (fst (plain_minimax fuel mx b)).
Proof.
  induction fuel as [|fuel IH]; intros b mx Hlen Hbl; [lia|].
  destruct (node_queries b Hlen) as (t & s & order0 & Ht & Hs & _ & _).
  destruct t.
  { cbn [plain_minimax]. rewrite Ht, Hs. by apply (score_values b). }
  destruct (plain_minimax_node fuel b mx Hlen Ht)
    as (order & Ho & Hne & Hempty & ->).
  assert (forall mx' c, c <> EMPTY ->
            Forall (fun m => score_like (fst (plain_minimax fuel mx' (<[m := c]> b))))
                   order) as Hkids.
  { intros mx' c Hc. eapply Forall_impl; [exact Hempty|]. intros m Hm.
    apply IH; [by rewrite length_insert | by apply blanks_child]. }
  destruct mx.
  - destruct (plain_max_loop_first (plain_minimax fuel) b order NegInf None)
      as [[_ Hall] | (pre & m & post & -> & -> & _)].
    + destruct order as [|m0 rest]; [done|].
      apply Forall_cons in Hall as [Hle _].
      pose proof (Hkids false AI ltac:(done)) as Hk.
      apply Forall_cons in Hk as [Hk _].
      apply score_like_finite in Hk as [Hk _].
      destruct (fst (plain_minimax fuel false (<[m0 := AI]> b))); done.
    + cbn [fst]. pose proof (Hkids false AI ltac:(done)) as Hk.
      apply Forall_app in Hk as [_ Hk]. by apply Forall_cons in Hk as [Hk _].
  - destruct (plain_min_loop_first (plain_minimax fuel) b order PosInf None)
      as [[_ Hall] | (pre & m & post & -> & -> & _)].
    + destruct order as [|m0 rest]; [done|].
      apply Forall_cons in Hall as [Hle _].
      pose proof (Hkids true HUMAN ltac:(done)) as Hk.
      apply Forall_cons in Hk as [Hk _].
      apply score_like_finite in Hk as [_ Hk].
      destruct (fst (plain_minimax fuel true (<[m0 := HUMAN]> b))); done.
    + cbn [fst]. pose proof (Hkids true HUMAN ltac:(done)) as Hk.
      apply Forall_app in Hk as [_ Hk]. by apply Forall_cons in Hk as [Hk _].
Qed.

(** In the default window both modes of [minimax] return the result of
    plain minimax. *)
Lemma minimax_default_window (ab : bool) (fuel : nat) (mx : bool) (b : board) :
  length b = 9 -> blanks b < fuel ->
  minimax ab fuel mx NegInf PosInf b = Ok (plain_minimax fuel mx b, b).
Proof.
  intros Hlen Hbl. destruct ab;
    [by apply minimax_pruned_root | by apply minimax_unpruned].
Qed.

Lemma search_value_plain (ab : bool) (fuel : nat) (mx : bool) (b : board) :
  length b = 9 -> blanks b < fuel ->
  search_value ab fuel mx b = Some (fst (plain_minimax fuel mx b)).
Proof.
  intros Hlen Hbl. unfold search_value.
  rewrite minimax_default_window by done.
  by destruct (plain_minimax fuel mx b).
Qed.

(** At a non-terminal node the maximizer returns the first candidate, in
    the order of [move_order], whose child has the greatest value. *)
Lemma plain_max_node (fuel : nat) (b : board) :
  length b = 9 -> blanks b < S fuel -> is_terminal b = Ok false ->
  exists pre m post,
    move_order b = Ok (pre ++ m :: post) /\
    b !! m = Some EMPTY /\
    plain_minimax (S fuel) true b =
      (fst (plain_minimax fuel false (<[m := AI]> b)), Some m) /\
    Forall (fun m' => ext_lt (fst (plain_minimax fuel false (<[m' := AI]> b)))
                             (fst (plain_minimax fuel false (<[m := AI]> b)))) pre /\
    Forall (fun m' => ext_le (fst (plain_minimax fuel false (<[m' := AI]> b)))
                             (fst (plain_minimax fuel false (<[m := AI]> b)))) post.
Proof.
  intros Hlen Hbl Ht.
  destruct (plain_minimax_node fuel b true Hlen Ht)
    as (order & Ho & Hne & Hempty & ->).
  destruct (plain_max_loop_first (plain_minimax fuel) b order NegInf None)
    as [[_ Hall] | (pre & m & post & -> & -> & _ & Hpre & Hpost)].
  - destruct order as [|m0 rest]; [done|].
    apply Forall_cons in Hall as [Hle _].
    apply Forall_cons in Hempty as [Hm0 _].
    assert (score_like (fst (plain_minimax fuel false (<[m0 := AI]> b)))) as Hk
      by (apply plain_minimax_range;
          [by rewrite length_insert | by apply blanks_child]).
    apply score_like_finite in Hk as [Hk _].
    destruct (fst (plain_minimax fuel false (<[m0 := AI]> b))); done.
  - exists pre, m, post. repeat split; try done.
    apply Forall_app in Hempty as [_ Hm]. by apply Forall_cons in Hm as [Hm _].
Qed.

Lemma plain_min_node (fuel : nat) (b : board) :
  length b = 9 -> blanks b < S fuel -> is_terminal b = Ok false ->
  exists pre m post,
    move_order b = Ok (pre ++ m :: post) /\
    b !! m = Some EMPTY /\
    plain_minimax (S fuel) false b =
      (fst (plain_minimax fuel true (<[m := HUMAN]> b)), Some m) /\
    Forall (fun m' => ext_lt (fst (plain_minimax fuel true (<[m := HUMAN]> b)))
                             (fst (plain_minimax fuel true (<[m' := HUMAN]> b)))) pre /\
    Forall (fun m' => ext_le (fst (plain_minimax fuel true (<[m := HUMAN]> b)))
                             (fst (plain_minimax fuel true (<[m' := HUMAN]> b)))) post.
Proof.
  intros Hlen Hbl Ht.
  destruct (plain_minimax_node fuel b false Hlen Ht)
    as (order & Ho & Hne & Hempty & ->).
  destruct (plain_min_loop_first (plain_minimax fuel) b order PosInf None)
    as [[_ Hall] | (pre & m & post & -> & -> & _ & Hpre & Hpost)].
  - destruct order as [|m0 rest]; [done|].
    apply Forall_cons in Hall as [Hle _].
    apply Forall_cons in Hempty as [Hm0 _].
    assert (score_like (fst (plain_minimax fuel true (<[m0 := HUMAN]> b)))) as Hk
      by (apply plain_minimax_range;
          [by rewrite length_insert | by apply blanks_child]).
    apply score_like_finite in Hk as [_ Hk].
    destruct (fst (plain_minimax fuel true (<[m0 := HUMAN]> b))); done.
  - exists pre, m, post. repeat split; try done.
    apply Forall_app in Hempty as [_ Hm]. by apply Forall_cons in Hm as [Hm _].
Qed.

(** ** The shape of a search result, in any window *)

Section Picks.

Variable ab : bool.
Variable rec : bool -> ext -> ext -> board -> result (search_result * board).
Variable b : board.

(** The loop returns the running best it was started with, or the value
    and the index of one of its candidates. *)
Lemma max_loop_picks order :
  Forall (child_scored rec b false AI) order ->
  forall bs bm alpha beta, exists v mv,
    max_loop ab rec order bs bm alpha beta b = Ok ((v, mv), b) /\
    ((v = bs /\ mv = bm) \/ (score_like v /\ exists m, mv = Some m /\ m ∈ order)).
Proof.
  induction 1 as [|m rest [Hm Hc] _ IH]; intros bs bm alpha beta.
  { exists bs, bm. split; [done|]. by left. }
  destruct (Hc alpha beta) as (s & mv0 & Hrec & Hs).
  rewrite (max_loop_cons _ _ _ _ _ _ _ _ _ _ _ Hm Hrec). cbn zeta.
  assert ((ext_max bs s = bs /\ (if ext_ltb bs s then Some m else bm) = bm) \/
          (score_like (ext_max bs s) /\
           (if ext_ltb bs s then Some m else bm) = Some m)) as Hstep.
  { unfold ext_max. destruct (ext_ltb bs s); [by right | by left]. }
  assert (forall v mv,
            (v = ext_max bs s /\ mv = (if ext_ltb bs s then Some m else bm)) \/
            (score_like v /\ exists m', mv = Some m' /\ m' ∈ rest) ->
            (v = bs /\ mv = bm) \/
            (score_like v /\ exists m', mv = Some m' /\ m' ∈ m :: rest)) as Hfin.
  { intros v mv [[-> ->] | [Hv (m' & -> & Hin)]].
    - destruct Hstep as [[-> ->] | [Hv ->]]; [by left|].
      right. split; [done|]. exists m. split; [done | by left].
    - right. split; [done|]. exists m'. split; [done | by right]. }
  destruct ab.
  - destruct (ext_leb beta _).
    + eexists _, _. split; [done|]. apply Hfin. by left.
    + destruct (IH (ext_max bs s) (if ext_ltb bs s then Some m else bm)
                  (ext_max alpha (ext_max bs s)) beta) as (v & mv & -> & Hv).
      exists v, mv. split; [done|]. by apply Hfin.
  - destruct (IH (ext_max bs s) (if ext_ltb bs s then Some m else bm)
                alpha beta) as (v & mv & -> & Hv).
    exists v, mv. split; [done|]. by apply Hfin.
Qed.

Lemma min_loop_picks order :
  Forall (child_scored rec b true HUMAN) order ->
  forall bs bm alpha beta, exists v mv,
    min_loop ab rec order bs bm alpha beta b = Ok ((v, mv), b) /\
    ((v = bs /\ mv = bm) \/ (score_like v /\ exists m, mv = Some m /\ m ∈ order)).
Proof.
  induction 1 as [|m rest [Hm Hc] _ IH]; intros bs bm alpha beta.
  { exists bs, bm. split; [done|]. by left. }
  destruct (Hc alpha beta) as (s & mv0 & Hrec & Hs).
  rewrite (min_loop_cons _ _ _ _ _ _ _ _ _ _ _ Hm Hrec). cbn zeta.
  assert ((ext_min bs s = bs /\ (if ext_ltb s bs then Some m else bm) = bm) \/
          (score_like (ext_min bs s) /\
           (if ext_ltb s bs then Some m else bm) = Some m)) as Hstep.
  { unfold ext_min. destruct (ext_ltb s bs); [by right | by left]. }
  assert (forall v mv,
            (v = ext_min bs s /\ mv = (if ext_ltb s bs then Some m else bm)) \/
            (score_like v /\ exists m', mv = Some m' /\ m' ∈ rest) ->
            (v = bs /\ mv = bm) \/
            (score_like v /\ exists m', mv = Some m' /\ m' ∈ m :: rest)) as Hfin.
  { intros v mv [[-> ->] | [Hv (m' & -> & Hin)]].
    - destruct Hstep as [[-> ->] | [Hv ->]]; [by left|].
      right. split; [done|]. exists m. split; [done | by left].
    - right. split; [done|]. exists m'. split; [done | by right]. }
  destruct ab.
  - destruct (ext_leb _ alpha).
    + eexists _, _. split; [done|]. apply Hfin. by left.
    + destruct (IH (ext_min bs s) (if ext_ltb s bs then Some m else bm)
                  alpha (ext_min beta (ext_min bs s))) as (v & mv & -> & Hv).
      exists v, mv. split; [done|]. by apply Hfin.
  - destruct (IH (ext_min bs s) (if ext_ltb s bs then Some m else bm)
                alpha beta) as (v & mv & -> & Hv).
    exists v, mv. split; [done|]. by apply Hfin.
Qed.

End Picks.

(** Every call of [minimax] on a 9-cell board, whatever the window and the
    pruning switch, returns a score and, unless the board is terminal, an
    empty cell. *)
Lemma minimax_result_shape (ab : bool) (fuel : nat) :
  forall (b : board), length b = 9 -> blanks b < fuel ->
  forall mx alpha beta, exists v mv,
    minimax ab fuel mx alpha beta b = Ok ((v, mv), b) /\ score_like v /\
    (is_terminal b = Ok true -> mv = None) /\
    (is_terminal b = Ok false -> exists m, mv = Some m /\ b !! m = Some EMPTY).
Proof.
  induction fuel as [|fuel IH]; intros b Hlen Hbl mx alpha beta; [lia|].
  destruct (node_queries b Hlen) as (t & s & order & Ht & Hs & Ho & Hempty).
  cbn [minimax]. rewrite Ht. cbn [bind]. destruct t.
  { rewrite Hs. cbn [bind]. exists (Fin s), None.
    split; [done|]. split; [by apply (score_values b)|]. by split. }
  rewrite Ho. cbn [bind].
  assert (order <> []) as Hne by (by eapply nonterminal_has_move).
  assert (forall mx' c, c <> EMPTY ->
            Forall (child_scored (minimax ab fuel) b mx' c) order) as Hkids.
  { intros mx' c Hc. eapply Forall_impl; [exact Hempty|]. intros m Hm.
    split; [done|]. intros a' b'.
    destruct (IH (<[m := c]> b)) with (mx := mx') (alpha := a') (beta := b')
      as (v & mv & Hr & Hv & _);
      [by rewrite length_insert | by apply blanks_child|].
    by exists v, mv. }
  destruct mx.
  - destruct order as [|m0 rest]; [done|].
    pose proof (Hkids false AI ltac:(done)) as Hk.
    apply Forall_cons in Hk as [[Hm0 Hc0] Hrest].
    destruct (Hc0 alpha beta) as (s0 & mv0 & Hrec & Hs0).
    rewrite (max_loop_cons _ _ _ _ _ _ _ _ _ _ _ Hm0 Hrec). cbn zeta.
    assert (ext_ltb NegInf s0 = true) as Hlt
      by (apply ext_ltb_true; by apply score_like_finite).
    assert (ext_max NegInf s0 = s0) as -> by (unfold ext_max; by rewrite Hlt).
    rewrite Hlt.
    assert (forall v mv,
              (v = s0 /\ mv = Some m0) \/
              (score_like v /\ exists m, mv = Some m /\ m ∈ rest) ->
              score_like v /\ (Ok false = Ok true -> mv = None) /\
              (Ok false = Ok false -> exists m, mv = Some m /\ b !! m = Some EMPTY))
      as Hdone.
    { intros v mv [[-> ->] | [Hv (m & -> & Hin)]]; (split; [done|]); (split; [done|]);
        intros _; eexists; (split; [done|]); [done|].
      apply Forall_cons in Hempty as [_ Hempty].
      by apply (Forall_forall (fun m => b !! m = Some EMPTY) rest). }
    destruct ab.
    + destruct (ext_leb beta _).
      * eexists _, _. split; [done|]. apply Hdone. by left.
      * destruct (max_loop_picks true (minimax true fuel) b rest Hrest
                    s0 (Some m0) (ext_max alpha s0) beta) as (v & mv & -> & Hv).
        exists v, mv. split; [done|]. by apply Hdone.
    + destruct (max_loop_picks false (minimax false fuel) b rest Hrest
                  s0 (Some m0) alpha beta) as (v & mv & -> & Hv).
      exists v, mv. split; [done|]. by apply Hdone.
  - destruct order as [|m0 rest]; [done|].
    pose proof (Hkids true HUMAN ltac:(done)) as Hk.
    apply Forall_cons in Hk as [[Hm0 Hc0] Hrest].
    destruct (Hc0 alpha beta) as (s0 & mv0 & Hrec & Hs0).
    rewrite (min_loop_cons _ _ _ _ _ _ _ _ _ _ _ Hm0 Hrec). cbn zeta.
    assert (ext_ltb s0 PosInf = true) as Hlt
      by (apply ext_ltb_true; by apply score_like_finite).
    assert (ext_min PosInf s0 = s0) as -> by (unfold ext_min; by rewrite Hlt).
    rewrite Hlt.
    assert (forall v mv,
              (v = s0 /\ mv = Some m0) \/
              (score_like v /\ exists m, mv = Some m /\ m ∈ rest) ->
              score_like v /\ (Ok false = Ok true -> mv = None) /\
              (Ok false = Ok false -> exists m, mv = Some m /\ b !! m = Some EMPTY))
      as Hdone.
    { intros v mv [[-> ->] | [Hv (m & -> & Hin)]]; (split; [done|]); (split; [done|]);
        intros _; eexists; (split; [done|]); [done|].
      apply Forall_cons in Hempty as [_ Hempty].
      by apply (Forall_forall (fun m => b !! m = Some EMPTY) rest). }
    destruct ab.
    + destruct (ext_leb _ alpha).
      * eexists _, _. split; [done|]. apply Hdone. by left.
      * destruct (min_loop_picks true (minimax true fuel) b rest Hrest
                    s0 (Some m0) alpha (ext_min beta s0)) as (v & mv & -> & Hv).
        exists v, mv. split; [done|]. by apply Hdone.
    + destruct (min_loop_picks false (minimax false fuel) b rest Hrest
                  s0 (Some m0) alpha beta) as (v & mv & -> & Hv).
      exists v, mv. split; [done|]. by apply Hdone.
Qed.

Lemma score_like_bounds (v : ext) :
  score_like v <-> exists s, v = Fin s /\ (-1 <= s <= 1)%Z.
Proof.
  split.
  - intros [-> | [-> | ->]]; eexists; (split; [done|]); lia.
  - intros (s & -> & Hs). unfold score_like.
    assert (s = (-1)%Z \/ s = 0%Z \/ s = 1%Z) as [-> | [-> | ->]] by lia; auto.
Qed.

(** X3: on a 9-cell board every call of [minimax], whatever the flag, the
    window and the pruning switch, returns a value among -1, 0 and 1 and
    restores the board; the move is [None] on a terminal board and the
    index of an empty cell otherwise. *)
Theorem minimax_returns_score_and_empty_cell (ab : bool) (fuel : nat) (mx : bool)
    (alpha beta : ext) (b : board) :
  length b = 9 -> blanks b < fuel ->
  exists s mv,
    minimax ab fuel mx alpha beta b = Ok ((Fin s, mv), b) /\
    (-1 <= s <= 1)%Z /\
    (is_terminal b = Ok true -> mv = None) /\
    (is_terminal b = Ok false -> exists m, mv = Some m /\ b !! m = Some EMPTY).
Proof.
  intros Hlen Hbl.
  destruct (minimax_result_shape ab fuel b Hlen Hbl mx alpha beta)
    as (v & mv & Hr & Hv & Hterm & Hnon).
  apply score_like_bounds in Hv as (s & -> & Hs). by exists s, mv.
Qed.

Lemma minimax_returns_score_and_empty_cell_witness :
  length sample_board = 9 /\ blanks sample_board < 4 /\
  exists s mv,
    minimax true 4 false (Fin 0) (Fin 0) sample_board = Ok ((Fin s, mv), sample_board) /\
    (-1 <= s <= 1)%Z /\
    (is_terminal sample_board = Ok true -> mv = None) /\
    (is_terminal sample_board = Ok false ->
     exists m, mv = Some m /\ sample_board !! m = Some EMPTY).
Proof.
  split; [reflexivity|]. split; [vm_compute; lia|].
  apply (minimax_returns_score_and_empty_cell true 4 false (Fin 0) (Fin 0) sample_board);
    [reflexivity | vm_compute; lia].
Defined.

(** X4: on a non-terminal 9-cell board [best_ai_move] returns the index of
    an empty cell, so that the assignment [board[m] = AI] of [game_loop]
    succeeds and fills a cell that was free. *)
Theorem best_ai_move_is_an_empty_cell (ab : bool) (fuel : nat) (b : board) :
  length b = 9 -> blanks b < fuel -> is_terminal b = Ok false ->
  exists m,
    best_ai_move ab fuel b = Ok (Some m, b) /\
    m < 9 /\ b !! m = Some EMPTY /\
    setitem b m AI = Ok (<[m := AI]> b).
Proof.
  intros Hlen Hbl Ht.
  destruct (minimax_result_shape ab fuel b Hlen Hbl true NegInf PosInf)
    as (v & mv & Hr & _ & _ & Hnon).
  destruct (Hnon Ht) as (m & -> & Hm). exists m.
  unfold best_ai_move. rewrite Hr. cbn [bind]. split; [done|].
  split; [apply lookup_lt_Some in Hm; lia|]. split; [done|].
  by apply (setitem_lookup b m AI EMPTY).
Qed.

Lemma best_ai_move_is_an_empty_cell_witness :
  length sample_board = 9 /\ blanks sample_board < 10 /\
  is_terminal sample_board = Ok false /\
  exists m,
    best_ai_move USE_ALPHA_BETA 10 sample_board = Ok (Some m, sample_board) /\
    m < 9 /\ sample_board !! m = Some EMPTY /\
    setitem sample_board m AI = Ok (<[m := AI]> sample_board).
Proof.
  split; [reflexivity|]. split; [vm_compute; lia|]. split; [reflexivity|].
  apply (best_ai_move_is_an_empty_cell USE_ALPHA_BETA 10 sample_board);
    [reflexivity | vm_compute; lia | reflexivity].
Defined.

(** ** The move returned is the first of the best *)

Lemma child_search_value (ab : bool) (fuel : nat) (mx : bool) (b : board)
    (m : nat) (c : cell) :
  length b = 9 -> blanks b < S fuel -> b !! m = Some EMPTY -> c <> EMPTY ->
  search_value ab fuel mx (<[m := c]> b)
  = Some (fst (plain_minimax fuel mx (<[m := c]> b))).
Proof.
  intros Hlen Hbl Hm Hc.
  apply search_value_plain; [by rewrite length_insert | by apply blanks_child].
Qed.

(** X5: at a non-terminal 9-cell board the maximizing search returns the
    value of the child position of its move; every candidate before that
    move in [move_order] has a child of strictly smaller value, and no
    empty cell has a child of greater value. *)
Theorem maximizer_returns_first_best_move (ab : bool) (fuel : nat) (b : board) :
  length b = 9 -> blanks b < S fuel -> is_terminal b = Ok false ->
  exists v m pre post,
    minimax ab (S fuel) true NegInf PosInf b = Ok ((v, Some m), b) /\
    move_order b = Ok (pre ++ m :: post) /\
    search_value ab fuel false (<[m := AI]> b) = Some v /\
    (forall m', m' ∈ pre -> exists v',
       search_value ab fuel false (<[m' := AI]> b) = Some v' /\ ext_lt v' v) /\
    (forall m', b !! m' = Some EMPTY -> exists v',
       search_value ab fuel false (<[m' := AI]> b) = Some v' /\ ext_le v' v).
Proof.
  intros Hlen Hbl Ht.
  destruct (plain_max_node fuel b Hlen Hbl Ht)
    as (pre & m & post & Ho & Hm & Hp & Hpre & Hpost).
  exists (fst (plain_minimax fuel false (<[m := AI]> b))), m, pre, post.
  pose proof (move_order_empty b _ Ho) as Hempty.
  split; [by rewrite minimax_default_window, Hp|]. split; [done|].
  split; [by apply child_search_value|]. split.
  - intros m' Hin. eexists. split.
    + apply child_search_value; try done.
      apply (Forall_forall (fun m => b !! m = Some EMPTY) _) with (x := m') in Hempty;
        [done|]. apply elem_of_app. by left.
    + by apply (Forall_forall _ pre) with (x := m') in Hpre.
  - intros m' Hm'. eexists. split; [by apply child_search_value|].
    apply (move_order_elem b _ m' Hlen Ho) in Hm'.
    apply elem_of_app in Hm' as [Hin | [-> | Hin]%elem_of_cons].
    + apply ext_lt_le. by apply (Forall_forall _ pre) with (x := m') in Hpre.
    + apply ext_le_refl.
    + by apply (Forall_forall _ post) with (x := m') in Hpost.
Qed.

Lemma maximizer_returns_first_best_move_witness :
  length sample_board = 9 /\ blanks sample_board < 4 /\
  is_terminal sample_board = Ok false /\
  exists v m pre post,
    minimax USE_ALPHA_BETA 4 true NegInf PosInf sample_board
      = Ok ((v, Some m), sample_board) /\
    move_order sample_board = Ok (pre ++ m :: post) /\
    search_value USE_ALPHA_BETA 3 false (<[m := AI]> sample_board) = Some v /\
    (forall m', m' ∈ pre -> exists v',
       search_value USE_ALPHA_BETA 3 false (<[m' := AI]> sample_board) = Some v' /\
       ext_lt v' v) /\
    (forall m', sample_board !! m' = Some EMPTY -> exists v',
       search_value USE_ALPHA_BETA 3 false (<[m' := AI]> sample_board) = Some v' /\
       ext_le v' v).
Proof.
  split; [reflexivity|]. split; [vm_compute; lia|]. split; [reflexivity|].
  apply (maximizer_returns_first_best_move USE_ALPHA_BETA 3 sample_board);
    [reflexivity | vm_compute; lia | reflexivity].
Defined.

(** X6: at a non-terminal 9-cell board the minimizing search returns the
    value of the child position of its move; every candidate before that
    move in [move_order] has a child of strictly greater value, and no
    empty cell has a child of smaller value. *)
Theorem minimizer_returns_first_best_move (ab : bool) (fuel : nat) (b : board) :
  length b = 9 -> blanks b < S fuel -> is_terminal b = Ok false ->
  exists v m pre post,
    minimax ab (S fuel) false NegInf PosInf b = Ok ((v, Some m), b) /\
    move_order b = Ok (pre ++ m :: post) /\
    search_value ab fuel true (<[m := HUMAN]> b) = Some v /\
    (forall m', m' ∈ pre -> exists v',
       search_value ab fuel true (<[m' := HUMAN]> b) = Some v' /\ ext_lt v v') /\
    (forall m', b !! m' = Some EMPTY -> exists v',
       search_value ab fuel true (<[m' := HUMAN]> b) = Some v' /\ ext_le v v').
Proof.
  intros Hlen Hbl Ht.
  destruct (plain_min_node fuel b Hlen Hbl Ht)
    as (pre & m & post & Ho & Hm & Hp & Hpre & Hpost).
  exists (fst (plain_minimax fuel true (<[m := HUMAN]> b))), m, pre, post.
  pose proof (move_order_empty b _ Ho) as Hempty.
  split; [by rewrite minimax_default_window, Hp|]. split; [done|].
  split; [by apply child_search_value|]. split.
  - intros m' Hin. eexists. split.
    + apply child_search_value; try done.
      apply (Forall_forall (fun m => b !! m = Some EMPTY) _) with (x := m') in Hempty;
        [done|]. apply elem_of_app. by left.
    + by apply (Forall_forall _ pre) with (x := m') in Hpre.
  - intros m' Hm'. eexists. split; [by apply child_search_value|].
    apply (move_order_elem b _ m' Hlen Ho) in Hm'.
    apply elem_of_app in Hm' as [Hin | [-> | Hin]%elem_of_cons].
    + apply ext_lt_le. by apply (Forall_forall _ pre) with (x := m') in Hpre.
    + apply ext_le_refl.
    + by apply (Forall_forall _ post) with (x := m') in Hpost.
Qed.

Lemma minimizer_returns_first_best_move_witness :
  length sample_board = 9 /\ blanks sample_board < 4 /\
  is_terminal sample_board = Ok false /\
  exists v m pre post,
    minimax USE_ALPHA_BETA 4 false NegInf PosInf sample_board
      = Ok ((v, Some m), sample_board) /\
    move_order sample_board = Ok (pre ++ m :: post) /\
    search_value USE_ALPHA_BETA 3 true (<[m := HUMAN]> sample_board) = Some v /\
    (forall m', m' ∈ pre -> exists v',
       search_value USE_ALPHA_BETA 3 true (<[m' := HUMAN]> sample_board) = Some v' /\
       ext_lt v v') /\
    (forall m', sample_board !! m' = Some EMPTY -> exists v',
       search_value USE_ALPHA_BETA 3 true (<[m' := HUMAN]> sample_board) = Some v' /\
       ext_le v v').
Proof.
  split; [reflexivity|]. split; [vm_compute; lia|]. split; [reflexivity|].
  apply (minimizer_returns_first_best_move USE_ALPHA_BETA 3 sample_board);
    [reflexivity | vm_compute; lia | reflexivity].
Defined.

(** ** Pruning in a window *)

(** X7: on a 9-cell board, in any window with [alpha < beta], the value
    that the pruned search returns is the unpruned value when it lies
    strictly inside the window; at or below [alpha] it is an upper bound of
    the unpruned value, at or above [beta] a lower bound. *)
Theorem pruned_value_is_exact_or_a_bound (fuel : nat) (mx : bool)
    (alpha beta : ext) (b : board) :
  length b = 9 -> blanks b < fuel -> ext_lt alpha beta ->
  exists v mv t mt,
    minimax true fuel mx alpha beta b = Ok ((v, mv), b) /\
    minimax false fuel mx alpha beta b = Ok ((t, mt), b) /\
    (ext_le v alpha -> ext_le t v) /\
    (ext_le beta v -> ext_le v t) /\
    (ext_lt alpha v -> ext_lt v beta -> v = t).
Proof.
  intros Hlen Hbl Hab.
  destruct (minimax_pruned_bounded fuel b Hlen Hbl mx alpha beta Hab)
    as (v & mv & Hr & Hlow & Hhigh & Hin).
  destruct (plain_minimax fuel mx b) as [t mt] eqn:Hp. cbn [fst] in *.
  exists v, mv, t, mt. split; [done|].
  split; [by rewrite minimax_unpruned, Hp|]. split; [done|]. split; [done|].
  intros H1 H2. destruct (Hin H1 H2). by apply ext_le_antisym.
Qed.

Lemma pruned_value_is_exact_or_a_bound_witness :
  length sample_board = 9 /\ blanks sample_board < 4 /\ ext_lt (Fin (-1)) (Fin 0) /\
  exists v mv t mt,
    minimax true 4 true (Fin (-1)) (Fin 0) sample_board = Ok ((v, mv), sample_board) /\
    minimax false 4 true (Fin (-1)) (Fin 0) sample_board = Ok ((t, mt), sample_board) /\
    (ext_le v (Fin (-1)) -> ext_le t v) /\
    (ext_le (Fin 0) v -> ext_le v t) /\
    (ext_lt (Fin (-1)) v -> ext_lt v (Fin 0) -> v = t).
Proof.
  split; [reflexivity|]. split; [vm_compute; lia|]. split; [simpl; lia|].
  apply (pruned_value_is_exact_or_a_bound 4 true (Fin (-1)) (Fin 0) sample_board);
    [reflexivity | vm_compute; lia | simpl; lia].
Defined.

(** ** A win at hand *)

(** X8: when the engine can complete a line at once on a non-terminal
    9-cell board, the maximizing search returns the value 1, and the move it
    returns leads to a position whose value is 1. *)
Theorem win_at_hand_has_value_one (ab : bool) (fuel : nat) (b : board) (m : nat) :
  length b = 9 -> blanks b < S fuel -> is_terminal b = Ok false ->
  b !! m = Some EMPTY -> winner (<[m := AI]> b) = Ok (Some AI) ->
  exists m',
    minimax ab (S fuel) true NegInf PosInf b = Ok ((Fin 1, Some m'), b) /\
    search_value ab fuel false (<[m' := AI]> b) = Some (Fin 1).
Proof.
  intros Hlen Hbl Ht Hm Hwin.
  destruct (plain_max_node fuel b Hlen Hbl Ht)
    as (pre & m' & post & Ho & Hm' & Hp & Hpre & Hpost).
  assert (fst (plain_minimax fuel false (<[m := AI]> b)) = Fin 1) as Hone.
  { pose proof (blanks_insert b m AI Hm ltac:(done)) as Hb.
    destruct fuel as [|fuel]; [lia|]. cbn [plain_minimax].
    unfold is_terminal, score. rewrite Hwin. done. }
  assert (ext_le (Fin 1) (fst (plain_minimax fuel false (<[m' := AI]> b)))) as Hle.
  { rewrite <- Hone.
    pose proof (proj2 (move_order_elem b _ m Hlen Ho) Hm) as Hin.
    apply elem_of_app in Hin as [Hin | [-> | Hin]%elem_of_cons].
    - apply ext_lt_le. by apply (Forall_forall _ pre) with (x := m) in Hpre.
    - apply ext_le_refl.
    - by apply (Forall_forall _ post) with (x := m) in Hpost. }
  assert (score_like (fst (plain_minimax fuel false (<[m' := AI]> b)))) as Hs
    by (apply plain_minimax_range;
        [by rewrite length_insert | by apply blanks_child]).
  assert (fst (plain_minimax fuel false (<[m' := AI]> b)) = Fin 1) as Hv.
  { destruct Hs as [Hs | [Hs | Hs]]; rewrite Hs in Hle; simpl in Hle; [lia | lia | done]. }
  exists m'. split.
  - by rewrite minimax_default_window, Hp, Hv.
  - by rewrite child_search_value, Hv.
Qed.

Lemma win_at_hand_has_value_one_witness :
  length sample_board = 9 /\ blanks sample_board < 4 /\
  is_terminal sample_board = Ok false /\
  sample_board !! 7 = Some EMPTY /\
  winner (<[7 := AI]> sample_board) = Ok (Some AI) /\
  exists m',
    minimax USE_ALPHA_BETA 4 true NegInf PosInf sample_board
      = Ok ((Fin 1, Some m'), sample_board) /\
    search_value USE_ALPHA_BETA 3 false (<[m' := AI]> sample_board) = Some (Fin 1).
Proof.
  split; [reflexivity|]. split; [vm_compute; lia|]. split; [reflexivity|].
  split; [reflexivity|]. split; [reflexivity|].
  apply (win_at_hand_has_value_one USE_ALPHA_BETA 3 sample_board 7);
    [reflexivity | vm_compute; lia | reflexivity | reflexivity | reflexivity].
Defined.

(** ** The line that [human_turn] takes *)

Lemma human_turn_skips (skipped : list str) (b : board) (rest : list str) :
  Forall (refused b) skipped ->
  human_turn (skipped ++ rest) b = human_turn rest b.
Proof.
  induction 1 as [|l skipped Hl _ IH]; [done|].
  rewrite <- app_comm_cons. by rewrite human_turn_refused.
Qed.

(** X9: [human_turn] returns exactly when some line names an empty cell:
    it takes the first such line, refuses every line before it, places one
    [HUMAN] mark there and leaves the later lines unread. *)
Theorem human_turn_takes_first_acceptable_line (inputs : list str)
    (b b' : board) (rest : list str) :
  human_turn inputs b = Ok (b', rest) <->
  exists skipped l m,
    inputs = skipped ++ l :: rest /\ Forall (refused b) skipped /\
    parse_move (strip l) = Ok (Some m) /\ b !! m = Some EMPTY /\
    b' = <[m := HUMAN]> b.
Proof.
  split.
  - induction inputs as [|l inputs IH]; cbn [human_turn]; [done|].
    destruct (parse_move (strip l)) as [[m|]| |] eqn:Hp; cbn [bind]; try done.
    + unfold getitem. destruct (b !! m) as [c|] eqn:Hm; cbn [bind]; [|done].
      destruct (cell_eqb c EMPTY) eqn:E; cbn [negb].
      * apply cell_eqb_eq in E as ->.
        rewrite (setitem_lookup _ _ _ _ Hm). cbn [bind]. intros [= <- <-].
        by exists [], l, m.
      * intros (skipped & l' & m' & -> & Hsk & H') % IH.
        exists (l :: skipped), l', m'. split; [done|]. split; [|done].
        constructor; [|done]. right. exists m, c. split; [done|]. split; [done|].
        intros ->. by rewrite cell_eqb_refl in E.
    + intros (skipped & l' & m' & -> & Hsk & H') % IH.
      exists (l :: skipped), l', m'. split; [done|]. split; [|done].
      constructor; [by left | done].
  - intros (skipped & l & m & -> & Hsk & Hp & Hm & ->).
    rewrite (human_turn_skips skipped b _ Hsk). cbn [human_turn].
    rewrite Hp. cbn [bind]. unfold getitem. rewrite Hm. cbn [bind].
    rewrite cell_eqb_refl. cbn [negb]. by rewrite (setitem_lookup _ _ _ _ Hm).
Qed.

(** ** [strip] *)

(** No white space at the front. *)
Lemma lstrip_clean (s : str) : lstrip (lstrip s) = lstrip s.
Proof.
  induction s as [|c s IH]; [done|]. cbn [lstrip].
  destruct (isspace c) eqn:E; [done|]. cbn [lstrip]. by rewrite E.
Qed.

Lemma lstrip_suffix (s : str) : exists sp, s = sp ++ lstrip s.
Proof.
  induction s as [|c s [sp IH]]; [by exists []|]. cbn [lstrip].
  destruct (isspace c); [|by exists []].
  exists (c :: sp). by rewrite <- app_comm_cons, <- IH.
Qed.

Lemma lstrip_app_fixed (s t : str) :
  s <> [] -> lstrip s = s -> lstrip (s ++ t) = s ++ t.
Proof.
  destruct s as [|c s]; [done|]. intros _. cbn [lstrip app].
  destruct (isspace c) eqn:E; [|done].
  intros H. exfalso.
  destruct (lstrip_suffix s) as [sp Hsp].
  assert (length (lstrip s) = S (length s)) as Hl by (by rewrite H).
  rewrite Hsp in Hl at 2. rewrite length_app in Hl. lia.
Qed.

Lemma lstrip_rev_fixed (t : str) :
  lstrip t = t -> lstrip (rev (lstrip (rev t))) = rev (lstrip (rev t)).
Proof.
  intros Ht. destruct (lstrip_suffix (rev t)) as [sp Hsp].
  destruct (lstrip (rev t)) as [|c u] eqn:Hu; [done|].
  assert (t = rev (c :: u) ++ rev sp) as Heq.
  { rewrite <- rev_app_distr, <- Hsp. by rewrite rev_involutive. }
  assert (rev (c :: u) <> []) as Hne.
  { intros H. apply (f_equal (@length ascii)) in H.
    rewrite length_rev in H. done. }
  destruct (rev (c :: u)) as [|d w] eqn:Hw; [done|].
  rewrite Heq in Ht. cbn [lstrip app] in Ht |- *.
  destruct (isspace d) eqn:E; [|done]. exfalso.
  destruct (lstrip_suffix (w ++ rev sp)) as [sp' Hsp'].
  assert (length (lstrip (w ++ rev sp)) = S (length (w ++ rev sp))) as Hl
    by (by rewrite Ht).
  rewrite Hsp' in Hl at 2. rewrite length_app in Hl. lia.
Qed.

Lemma strip_strip (s : str) : strip (strip s) = strip s.
Proof.
  unfold strip.
  rewrite (lstrip_rev_fixed (lstrip s)) by apply lstrip_clean.
  by rewrite rev_involutive, lstrip_clean.
Qed.

(** X10: [strip] is idempotent, so the call of [strip] in [human_turn]
    changes nothing: [parse_move] gives a stripped line and the line itself
    the same answer. *)
Theorem parse_move_strips_its_argument (s : str) :
  strip (strip s) = strip s /\ parse_move (strip s) = parse_move s.
Proof.
  split; [apply strip_strip|]. unfold parse_move. by rewrite strip_strip.
Qed.

(** ** [parse_move] on a row and a column *)


















(** X12: two digits written without a separator parse as the row and the
    column that they are. *)
Theorem parse_move_of_two_digits (r c : nat) :
  r < 10 -> c < 10 ->
  parse_move (str_of_nat r ++ str_of_nat c) = Ok (cell_index r c).
Proof.
  intros Hr Hc.
  do 10 (destruct r as [|r];
         [do 10 (destruct c as [|c]; [vm_compute; reflexivity|]); lia|]).
  lia.
Qed.

Lemma parse_move_of_two_digits_witness :
  parse_move (line "23") = Ok (Some 5) /\ parse_move (line "40") = Ok None.
Proof.
  split.
  - apply (parse_move_of_two_digits 2 3); lia.
  - apply (parse_move_of_two_digits 4 0); lia.
Defined.

(** X13: the line in which [game_loop] announces the engine's move parses
    back to that move. *)
Theorem ai_message_parses_to_its_move (m : nat) :
  m < 9 -> parse_move (ai_chose_message m) = Ok (Some m).
Proof.
  intros Hm. do 9 (destruct m as [|m]; [vm_compute; reflexivity|]). lia.
Qed.

Lemma ai_message_parses_to_its_move_witness :
  ai_chose_message 5 = line "AI chose: row 2, col 3" /\
  parse_move (ai_chose_message 5) = Ok (Some 5).
Proof.
  split; [reflexivity|]. apply (ai_message_parses_to_its_move 5). lia.
Defined.

(** ** [print_board] *)

Lemma nine_cells (b : board) :
  length b = 9 ->
  exists c0 c1 c2 c3 c4 c5 c6 c7 c8, b = [c0; c1; c2; c3; c4; c5; c6; c7; c8].
Proof.
  intros H. do 9 (destruct b as [|? b]; [done|]). destruct b; [|done].
  by do 9 eexists.
Qed.

Lemma read_cell_text (c : cell) : read_cell (cell_text c) = c.
Proof. by destruct c. Qed.

Lemma print_board_read (b : board) :
  length b = 9 -> read_board (fst (print_board b)) = b.
Proof.
  intros (c0 & c1 & c2 & c3 & c4 & c5 & c6 & c7 & c8 & ->)%nine_cells.
  cbv -[cell_text read_cell]. by rewrite !read_cell_text.
Qed.

(** X14: [print_board] raises [IndexError] exactly on boards of fewer than
    nine cells; on a board of nine cells or more it returns, writes 78
    characters and shows the first nine cells only. *)
Theorem print_board_needs_nine_cells (b : board) :
  (length b < 9 -> snd (print_board b) = Raise IndexError) /\
  (9 <= length b ->
   snd (print_board b) = Ok tt /\
   length (fst (print_board b)) = 78 /\
   print_board b = print_board (take 9 b)).
Proof.
  do 9 (destruct b as [|? b]; [split; [intros _; reflexivity | simpl; lia]|]).
  split; [simpl; lia|]. intros _. repeat split.
Qed.

Lemma print_board_needs_nine_cells_witness :
  snd (print_board [X; O]) = Raise IndexError /\
  snd (print_board (sample_board ++ [X])) = Ok tt /\
  length (fst (print_board (sample_board ++ [X]))) = 78 /\
  print_board (sample_board ++ [X]) = print_board sample_board.
Proof.
  split.
  - apply (print_board_needs_nine_cells [X; O]). simpl. lia.
  - apply (print_board_needs_nine_cells (sample_board ++ [X])). simpl. lia.
Defined.

(** X15: a 9-cell board can be read back from the text that [print_board]
    writes, so two 9-cell boards that are shown alike are equal. *)
Theorem print_board_shows_the_board (b b' : board) :
  length b = 9 ->
  read_board (fst (print_board b)) = b /\
  (length b' = 9 -> print_board b = print_board b' -> b = b').
Proof.
  intros Hlen. split; [by apply print_board_read|].
  intros Hlen' Heq.
  rewrite <- (print_board_read b Hlen), <- (print_board_read b' Hlen').
  by rewrite Heq.
Qed.

Lemma print_board_shows_the_board_witness :
  length sample_board = 9 /\
  read_board (fst (print_board sample_board)) = sample_board.
Proof.
  split; [reflexivity|].
  exact (proj1 (print_board_shows_the_board sample_board sample_board eq_refl)).
Defined.

(** ** Refused lines and the game *)

(** X16: lines that are refused at the human's turn have no effect on the
    game: it goes on as if they had not been typed. *)
Theorem refused_lines_do_not_change_the_game (turns : nat)
    (skipped inputs : list str) (b : board) :
  Forall (refused b) skipped ->
  game_turns turns (skipped ++ inputs) b true = game_turns turns inputs b true.
Proof.
  intros Hsk. destruct turns as [|turns]; [done|].
  cbn [game_turns]. unfold game_step. by rewrite human_turn_skips.
Qed.

Lemma refused_lines_do_not_change_the_game_witness :
  Forall (refused empty_board) [line "9 9"; line "zero"] /\
  game_turns 9 ([line "9 9"; line "zero"] ++ [line "2 2"]) empty_board true
  = game_turns 9 [line "2 2"] empty_board true.
Proof.
  assert (Forall (refused empty_board) [line "9 9"; line "zero"]) as H
    by (repeat constructor; left; vm_compute; reflexivity).
  split; [exact H|].
  exact (refused_lines_do_not_change_the_game 9 _ [line "2 2"] empty_board H).
Defined.

(** ** The chatbot *)

Lemma chat_loop_run (pre : list str) :
  Forall (fun x => answer_to x <> Goodbye) pre ->
  forall rest out,
    chat_loop (pre ++ rest) out =
    chat_loop rest (out ++ map (fun x => answer_text (answer_to x)) pre).
Proof.
  induction 1 as [|x pre Hx _ IH]; intros rest out.
  { by rewrite app_nil_r. }
  rewrite <- app_comm_cons. cbn [chat_loop map].
  destruct (answer_to x) eqn:E; try done;
    rewrite IH; by rewrite <- app_assoc.
Qed.

(** X17: the chatbot answers every line with one line of its own, in
    order; it stops after the first line whose answer is the farewell and
    reads nothing after it, and when there is no such line it answers all
    of them and ends on [EOFError]. *)
Theorem chatbot_stops_at_first_farewell (pre : list str) :
  Forall (fun x => answer_to x <> Goodbye) pre ->
  (forall l rest, answer_to l = Goodbye ->
     chatbot (pre ++ l :: rest) =
       (line "Chatbot: Hi! I'm a simple chatbot. Type 'bye' to exit."
          :: map (fun x => answer_text (answer_to x)) (pre ++ [l]),
        Ok tt)) /\
  chatbot pre =
    (line "Chatbot: Hi! I'm a simple chatbot. Type 'bye' to exit."
       :: map (fun x => answer_text (answer_to x)) pre,
     Raise EOFError).
Proof.
  intros Hpre. unfold chatbot. split.
  - intros l rest Hl. rewrite (chat_loop_run pre Hpre). cbn [chat_loop].
    rewrite map_app. cbn [map]. rewrite Hl. by rewrite <- app_assoc.
  - rewrite <- (app_nil_r pre) at 1. by rewrite (chat_loop_run pre Hpre).
Qed.

Lemma chatbot_stops_at_first_farewell_witness :
  Forall (fun x => answer_to x <> Goodbye) [line "Hello"; line "How are you? Bye"] /\
  chatbot ([line "Hello"; line "How are you? Bye"] ++ line "BYE" :: [line "hi"]) =
    ([line "Chatbot: Hi! I'm a simple chatbot. Type 'bye' to exit.";
      line "Chatbot: Hello! How are you?";
      line "Chatbot: I'm just a bot, but I'm doing fine. Thanks for asking!";
      line "Chatbot: Goodbye! Have a great day."], Ok tt).
Proof.
  assert (Forall (fun x => answer_to x <> Goodbye)
            [line "Hello"; line "How are you? Bye"]) as H
    by (repeat constructor; vm_compute; discriminate).
  split; [exact H|].
  exact (proj1 (chatbot_stops_at_first_farewell _ H) (line "BYE") [line "hi"] eq_refl).
Defined.

Lemma lower_char_lower (c : ascii) : lower_char (lower_char c) = lower_char c.
Proof.
  destruct c as [b0 b1 b2 b3 b4 b5 b6 b7].
  by destruct b0, b1, b2, b3, b4, b5, b6, b7.
Qed.

Lemma lower_lower (s : str) : lower (lower s) = lower s.
Proof.
  unfold lower. rewrite map_map. apply map_ext. apply lower_char_lower.
Qed.

(** X18: the chatbot does not tell capital letters from small ones: a
    line and the same line in small letters get the same answer. *)
Theorem chatbot_ignores_letter_case (raw : str) :
  lower (lower raw) = lower raw /\ answer_to (lower raw) = answer_to raw.
Proof.
  split; [apply lower_lower|]. unfold answer_to. by rewrite lower_lower.
Qed.
